(** * Zork agent driver: text-state extraction, history window, mock policy
      and turn loop of [agent/play_with_llm.py]

    The Python source is embedded shallowly.  Text is a [string] of 8-bit
    characters read as the code points U+0000..U+00FF; on that range the
    character classes below are exactly the ones CPython uses for [str]
    ([str.isspace], the line boundaries of [str.splitlines], [\s] and [\d] of
    the [re] module, [str.lower]).  Python integers are [Z].  Operations that
    can raise in Python return a [result]. *)

From Stdlib Require Import Bool Arith ZArith List String Ascii Lia.
Import ListNotations.

Open Scope string_scope.
Open Scope list_scope.
Open Scope nat_scope.

(** ** Exceptions *)

Inductive exn : Type :=
| IndexError
| KeyError
| ValueError
| TypeError
| AttributeError
| RequestException
| HTTPError
| JSONDecodeError
| TIMEOUT.

Inductive result (A : Type) : Type :=
| Ok (a : A)
| Raise (e : exn).

Arguments Ok {A} a.
Arguments Raise {A} e.

Definition bind {A B : Type} (m : result A) (k : A -> result B) : result B :=
  match m with
  | Ok a => k a
  | Raise e => Raise e
  end.

Notation "x <- m ;; k" := (bind m (fun x => k))
  (at level 61, m at next level, right associativity).
Notation "' p <- m ;; k" := (bind m (fun x => let p := x in k))
  (at level 61, p pattern, m at next level, right associativity).

Definition raises {A : Type} (m : result A) : bool :=
  match m with
  | Ok _ => false
  | Raise _ => true
  end.

(** ** Python [str] primitives *)

Module PyStr.

Definition code (c : ascii) : nat := nat_of_ascii c.

Definition LF : ascii := ascii_of_nat 10.
Definition CR : ascii := ascii_of_nat 13.
Definition nl : string := String LF "".

(** [str.isspace] on one character: TAB..CR, FS..US, SPACE, NEL, NBSP. *)
Definition isspace (c : ascii) : bool :=
  let n := code c in
  ((9 <=? n) && (n <=? 13)) || ((28 <=? n) && (n <=? 32))
  || (n =? 133) || (n =? 160).

(** Line boundaries of [str.splitlines]: LF, VT, FF, CR, FS, GS, RS, NEL. *)
Definition is_linebreak (c : ascii) : bool :=
  let n := code c in
  ((10 <=? n) && (n <=? 13)) || ((28 <=? n) && (n <=? 30)) || (n =? 133).

(** [\d] of [re] on a [str] pattern. *)
Definition isdigit (c : ascii) : bool :=
  let n := code c in (48 <=? n) && (n <=? 57).

(** [str.lower] on one character (A-Z, and the Latin-1 capitals but the
    multiplication sign). *)
Definition lower_char (c : ascii) : ascii :=
  let n := code c in
  if ((65 <=? n) && (n <=? 90))
     || ((192 <=? n) && (n <=? 222) && negb (n =? 215))
  then ascii_of_nat (n + 32) else c.

Fixpoint lower (s : string) : string :=
  match s with
  | EmptyString => EmptyString
  | String c s' => String (lower_char c) (lower s')
  end.

(** Truth value of a string: [if s]. *)
Definition truthy (s : string) : bool :=
  match s with
  | EmptyString => false
  | String _ _ => true
  end.

Fixpoint lstrip_by (p : ascii -> bool) (s : string) : string :=
  match s with
  | EmptyString => EmptyString
  | String c s' => if p c then lstrip_by p s' else s
  end.

Fixpoint rstrip_by (p : ascii -> bool) (s : string) : string :=
  match s with
  | EmptyString => EmptyString
  | String c s' =>
      match rstrip_by p s' with
      | EmptyString => if p c then EmptyString else String c EmptyString
      | r => String c r
      end
  end.

Definition lstrip : string -> string := lstrip_by isspace.
Definition rstrip : string -> string := rstrip_by isspace.
Definition strip (s : string) : string := lstrip (rstrip s).

(** [s.rstrip('.')] *)
Definition rstrip_dot : string -> string :=
  rstrip_by (fun c => Ascii.eqb c "."%char).

(** [s.startswith(p)] *)
Definition startswith (s p : string) : bool := String.prefix p s.

(** [needle in s] *)
Fixpoint contains (needle s : string) : bool :=
  String.prefix needle s
  || match s with
     | EmptyString => false
     | String _ s' => contains needle s'
     end.

(** [s.splitlines()]: the flag records that the previous character was a
    CR, so that a directly following LF belongs to the same boundary. *)
Fixpoint lines_from (after_cr : bool) (s : string) : list string :=
  match s with
  | EmptyString => []
  | String c s' =>
      if after_cr && Ascii.eqb c LF then lines_from false s'
      else if is_linebreak c then EmptyString :: lines_from (Ascii.eqb c CR) s'
      else match lines_from false s' with
           | [] => [String c EmptyString]
           | l :: ls => String c l :: ls
           end
  end.

Definition splitlines (s : string) : list string := lines_from false s.

(** [sep.join(parts)] *)
Fixpoint join (sep : string) (parts : list string) : string :=
  match parts with
  | [] => EmptyString
  | [p] => p
  | p :: ps => (p ++ sep ++ join sep ps)%string
  end.

(** The text after the first occurrence of character [c], when there is
    one: the second element of [s.split(c, 1)]. *)
Fixpoint after_first (c : ascii) (s : string) : option string :=
  match s with
  | EmptyString => None
  | String a s' => if Ascii.eqb a c then Some s' else after_first c s'
  end.

(** [s.split(':', 1)[1]]: the list has a second element only when the
    separator occurs. *)
Definition split1_second (c : ascii) (s : string) : result string :=
  match after_first c s with
  | Some r => Ok r
  | None => Raise IndexError
  end.

(** The text left after the literal [p] at the start of [s]. *)
Fixpoint drop_prefix (p s : string) : option string :=
  match p, s with
  | EmptyString, _ => Some s
  | String a p', String b s' => if Ascii.eqb a b then drop_prefix p' s' else None
  | String _ _, EmptyString => None
  end.

(** The longest run of characters satisfying [p] at the start of [s], and
    what follows it. *)
Fixpoint span (p : ascii -> bool) (s : string) : string * string :=
  match s with
  | EmptyString => (EmptyString, EmptyString)
  | String c s' =>
      if p c then let '(a, b) := span p s' in (String c a, b)
      else (EmptyString, s)
  end.

(** The value of a digit string, read from the left. *)
Fixpoint digits_value (acc : Z) (s : string) : result Z :=
  match s with
  | EmptyString => Ok acc
  | String c s' =>
      if isdigit c
      then digits_value (10 * acc + Z.of_nat (code c - 48)) s'
      else Raise ValueError
  end.

(** [sys.get_int_max_str_digits()] of CPython 3.11 and later, as the
    interpreter starts when neither [PYTHONINTMAXSTRDIGITS] nor
    [-X int_max_str_digits] is given: a numeral with more digits than this
    is refused by [int]. *)
Definition int_max_str_digits : nat := 4300.

(** [int(s)] on a decimal numeral.  Only the digit strings captured by
    [(\d+)] reach it; any other argument is reported as [ValueError], and
    so is a numeral of more than [int_max_str_digits] digits.  Below the
    limit the value is an unbounded integer. *)
Definition py_int (s : string) : result Z :=
  match s with
  | EmptyString => Raise ValueError
  | _ =>
      if int_max_str_digits <? String.length s then Raise ValueError
      else digits_value 0 s
  end.

End PyStr.

Import PyStr.

(** ** The regular expressions of the source *)

Module Re.

(** The pieces the score pattern is made of: a literal, a greedy
    repetition [c*] of a character class, and a captured greedy repetition
    [(c+)]. *)
Inductive atom : Type :=
| Lit (s : string)
| Many (cls : ascii -> bool)
| Group (cls : ascii -> bool).

(** Greedy repetition with backtracking: consume as long as the class
    allows, then hand what was taken and what is left to the rest of the
    pattern [k]; when the rest fails, give one character back and try
    again. *)
Fixpoint repeat_greedy {R : Type} (cls : ascii -> bool)
    (k : string -> string -> option R) (taken s : string) : option R :=
  match s with
  | EmptyString => k taken s
  | String c s' =>
      if cls c then
        match repeat_greedy cls k (taken ++ String c EmptyString)%string s' with
        | Some r => Some r
        | None => k taken s
        end
      else k taken s
  end.

(** A match of the atoms at the start of [s]: the captured groups. *)
Fixpoint match_atoms (atoms : list atom) (groups : list string) (s : string)
  : option (list string) :=
  match atoms with
  | [] => Some groups
  | Lit l :: rest =>
      match drop_prefix l s with
      | Some s' => match_atoms rest groups s'
      | None => None
      end
  | Many cls :: rest =>
      repeat_greedy cls (fun _ s' => match_atoms rest groups s') EmptyString s
  | Group cls :: rest =>
      repeat_greedy cls
        (fun taken s' =>
           if truthy taken then match_atoms rest (groups ++ [taken]) s'
           else None)
        EmptyString s
  end.

(** [Score:\s*(\d+)\s*Turns:\s*(\d+)] *)
Definition score_pattern : list atom :=
  [Lit "Score:"; Many isspace; Group isdigit; Many isspace;
   Lit "Turns:"; Many isspace; Group isdigit].

(** One attempt of the pattern at the start of [s]: groups 1 and 2. *)
Definition score_turns_here (s : string) : option (string * string) :=
  match match_atoms score_pattern [] s with
  | Some [g1; g2] => Some (g1, g2)
  | _ => None
  end.

(** The same attempt without backtracking, every repetition taking its
    longest run. *)
Definition score_turns_longest (s : string) : option (string * string) :=
  match drop_prefix "Score:" s with
  | None => None
  | Some r1 =>
      let '(g1, r2) := span isdigit (lstrip r1) in
      if truthy g1 then
        match drop_prefix "Turns:" (lstrip r2) with
        | None => None
        | Some r3 =>
            let '(g2, _) := span isdigit (lstrip r3) in
            if truthy g2 then Some (g1, g2) else None
        end
      else None
  end.

(** [re.search(r'Score:\s*(\d+)\s*Turns:\s*(\d+)', s)]: the leftmost
    position with a match; the result holds groups 1 and 2. *)
Fixpoint search_score_turns (s : string) : option (string * string) :=
  match score_turns_here s with
  | Some m => Some m
  | None =>
      match s with
      | EmptyString => None
      | String _ s' => search_score_turns s'
      end
  end.

(** The first of the literal alternatives that starts [s]. *)
Fixpoint first_literal (alts : list string) (s : string) : option string :=
  match alts with
  | [] => None
  | d :: ds => if String.prefix d s then Some d else first_literal ds s
  end.

(** [re.split] for an alternation of non-empty literals.  [skip] counts
    the characters of a matched separator still to be passed over. *)
Fixpoint split_literals (alts : list string) (skip : nat) (s : string)
  : list string :=
  match s with
  | EmptyString => [EmptyString]
  | String c s' =>
      match skip with
      | S k => split_literals alts k s'
      | O =>
          match first_literal alts s with
          | Some d => EmptyString :: split_literals alts (String.length d - 1) s'
          | None =>
              match split_literals alts 0 s' with
              | [] => [String c EmptyString]
              | p :: ps => String c p :: ps
              end
          end
      end
  end.

(** [re.split(r',|;| and ', s)] *)
Definition split_items (s : string) : list string :=
  split_literals [","; ";"; " and "] 0 s.

End Re.

(** ** [parse_banner] *)

Record banner_vars : Type := mkBannerVars {
  bv_location : option string;
  bv_score : option Z;
  bv_turns : option Z
}.

(** One iteration of the [for line in text.splitlines()] loop. *)
Definition banner_line (st : banner_vars) (line : string) : result banner_vars :=
  let s := strip line in
  if negb (truthy s) then Ok st
  else
    let location :=
      match bv_location st with
      | None => Some s
      | Some l => Some l
      end in
    match Re.search_score_turns s with
    | Some (g1, g2) =>
        score <- py_int g1 ;;
        turns <- py_int g2 ;;
        Ok (mkBannerVars location (Some score) (Some turns))
    | None => Ok (mkBannerVars location (bv_score st) (bv_turns st))
    end.

Fixpoint banner_loop (st : banner_vars) (lines : list string) : result banner_vars :=
  match lines with
  | [] => Ok st
  | line :: rest => st' <- banner_line st line ;; banner_loop st' rest
  end.

(** [location or ''] *)
Definition or_empty (o : option string) : string :=
  match o with
  | Some s => if truthy s then s else EmptyString
  | None => EmptyString
  end.

Definition parse_banner (text : string) : result (string * option Z * option Z) :=
  st <- banner_loop (mkBannerVars None None None) (splitlines text) ;;
  Ok (or_empty (bv_location st), bv_score st, bv_turns st).

(** ** [parse_game_state] *)

Record game_state : Type := mkGameState {
  room : option string;
  description : string;
  inventory : list string
}.

(** [not s.strip()] *)
Definition blank (s : string) : bool := negb (truthy (strip s)).

(** ['Score:' in s or 'Turns:' in s] *)
Definition is_status (s : string) : bool :=
  contains "Score:" s || contains "Turns:" s.

(** [low.startswith('you are carrying') or 'you are carrying:' in low] with
    [low = s.lower()] *)
Definition is_inventory_intro (s : string) : bool :=
  let low := lower s in
  startswith low "you are carrying" || contains "you are carrying:" low.

(** [while idx < len(lines) and not lines[idx].strip(): idx += 1], run on
    the lines from [idx] on. *)
Fixpoint skip_empties (rest : list string) (idx : nat) : nat :=
  match rest with
  | [] => idx
  | l :: rest' => if blank l then skip_empties rest' (S idx) else idx
  end.

(** The [for i in range(idx, len(lines))] loop that looks for the room
    title, run on the lines from [i] on: the title and the index after it. *)
Fixpoint find_room (rest : list string) (i : nat) : option (string * nat) :=
  match rest with
  | [] => None
  | l :: rest' =>
      let s := strip l in
      if negb (truthy s) then find_room rest' (S i)
      else if is_status s then find_room rest' (S i)
      else if startswith s "[" then find_room rest' (S i)
      else Some (s, S i)
  end.

(** The items written on the introduction line itself:
    [[p.strip().rstrip('.') for p in parts if p.strip()]]. *)
Definition inline_items (after : string) : list string :=
  map (fun p => rstrip_dot (strip p))
      (filter (fun p => truthy (strip p)) (Re.split_items after)).

(** The [if ':' in s:] block. *)
Definition inline_inventory (s : string) : result (list string) :=
  if contains ":" s then
    rest <- split1_second ":"%char s ;;
    let after := strip rest in
    if truthy after then Ok (inline_items after) else Ok []
  else Ok [].

(** [while k < len(lines) and lines[k].strip(): inventory.append(...)] *)
Fixpoint following_items (rest : list string) : list string :=
  match rest with
  | [] => []
  | l :: rest' =>
      if truthy (strip l) then rstrip_dot (strip l) :: following_items rest'
      else []
  end.

(** The [for j in range(idx, len(lines))] loop, run on the lines from [j]
    on: the description lines gathered and the inventory. *)
Fixpoint gather (rest : list string) (description_lines : list string)
  : result (list string * list string) :=
  match rest with
  | [] => Ok (description_lines, [])
  | l :: rest' =>
      let s := rstrip l in
      if negb (truthy (strip s)) then Ok (description_lines, [])
      else if is_status s then Ok (description_lines, [])
      else if is_inventory_intro s then
        inv <- inline_inventory s ;;
        Ok (description_lines, inv ++ following_items rest')
      else gather rest' (description_lines ++ [s])
  end.

(** [lines = [ln.rstrip() for ln in text.splitlines()]] *)
Definition state_lines (text : string) : list string :=
  map rstrip (splitlines text).

(** The room title and the index at which the description starts. *)
Definition room_and_index (lines : list string) : option string * nat :=
  let idx := skip_empties lines 0 in
  match find_room (skipn idx lines) idx with
  | Some (s, i) => (Some s, i)
  | None => (None, idx)
  end.

(** [' '.join([d for d in description_lines if d]).strip()] *)
Definition join_description (description_lines : list string) : string :=
  strip (join " " (filter truthy description_lines)).

Definition parse_game_state (text : string) : result game_state :=
  if negb (truthy text) then Ok (mkGameState None "" [])
  else
    let lines := state_lines text in
    let '(room, idx) := room_and_index lines in
    '(description_lines, inventory) <- gather (skipn idx lines) [] ;;
    Ok (mkGameState room (join_description description_lines) inventory).

(** ** The rolling history of [main] *)

Module History.

Section Slices.
Context {A : Type}.

(** [l[-n:]] for a literal [n]: since [-0] is [0], [l[-0:]] is all of [l]. *)
Definition last_n (n : nat) (l : list A) : list A :=
  match n with
  | O => l
  | S _ => skipn (List.length l - n) l
  end.

(** [history.append(recent)] followed by
    [if len(history) > 12: history = history[-12:]]. *)
Definition append (history : list A) (recent : A) : list A :=
  let history := history ++ [recent] in
  if 12 <? List.length history then last_n 12 history else history.

(** The buffer after appending the chunks of [chunks] in order. *)
Definition append_all (history : list A) (chunks : list A) : list A :=
  fold_left append chunks history.

End Slices.

(** The two windows [main] takes of the history: [history[-4:]] for the
    banner and [history[-6:]] for the prompt and the game state. *)
Definition banner_window (history : list string) : list string := last_n 4 history.
Definition context_window (history : list string) : list string := last_n 6 history.

End History.

(** ** [mock_llm_policy] *)

Module Mock.

Definition responses : list string :=
  [ ("look" ++ nl ++ "I want to see the surroundings.")%string;
    ("north" ++ nl ++ "Move toward the house to explore.")%string;
    ("take lamp" ++ nl ++ "Pick up the lamp to illuminate dark rooms.")%string;
    ("open mailbox" ++ nl ++ "Maybe there's a letter inside.")%string;
    ("south" ++ nl ++ "Return toward the southern path.")%string ].

(** The response the cursor value [j] stands for. *)
Definition canned (j : nat) : string :=
  nth (j mod List.length responses) responses EmptyString.

(** [responses[i]] *)
Definition getitem (l : list string) (i : nat) : result string :=
  match nth_error l i with
  | Some r => Ok r
  | None => Raise IndexError
  end.

(** [mock_llm_policy()]: a generator that has not run yet, its local [i]
    at 0. *)
Definition mock_llm_policy : nat := 0.

(** One [next(mock_gen)]: the generator state is its local [i]; the call
    yields [responses[i % len(responses)]] and the generator resumes with
    [i += 1]. *)
Definition next (i : nat) : result (string * nat) :=
  r <- getitem responses (i mod List.length responses) ;;
  Ok (r, S i).

(** The outputs of [n] consecutive calls, starting with cursor [i]. *)
Fixpoint calls (n : nat) (i : nat) : result (list string) :=
  match n with
  | O => Ok []
  | S n' =>
      '(r, i') <- next i ;;
      rs <- calls n' i' ;;
      Ok (r :: rs)
  end.

End Mock.

(** ** [call_llm] *)

Module Llm.

(** A decoded JSON document, as [resp.json()] returns it: [None], [bool],
    a number, [str], [list], or [dict] with string keys. *)
#[warnings="-register-all"]
Inductive json : Type :=
| JNull
| JBool (b : bool)
| JNum (n : Z)
| JStr (s : string)
| JArr (items : list json)
| JObj (fields : list (string * json)).

Fixpoint lookup (fields : list (string * json)) (k : string) : option json :=
  match fields with
  | [] => None
  | (k', v) :: rest => if String.eqb k' k then Some v else lookup rest k
  end.

(** [v[k]] for a string key [k]. *)
Definition getitem (v : json) (k : string) : result json :=
  match v with
  | JObj fields =>
      match lookup fields k with
      | Some x => Ok x
      | None => Raise KeyError
      end
  | _ => Raise TypeError
  end.

(** [v[0]] *)
Definition getitem0 (v : json) : result json :=
  match v with
  | JArr (x :: _) => Ok x
  | JArr [] => Raise IndexError
  | JStr (String c _) => Ok (JStr (String c EmptyString))
  | JStr EmptyString => Raise IndexError
  | JObj _ => Raise KeyError
  | _ => Raise TypeError
  end.

(** [v.get(k, default)]; [v.get(k)] is [v.get(k, None)]. *)
Definition get (v : json) (k : string) (default : json) : result json :=
  match v with
  | JObj fields =>
      match lookup fields k with
      | Some x => Ok x
      | None => Ok default
      end
  | _ => Raise AttributeError
  end.

(** What [requests.post] meets: no response at all (connection error,
    time-out), or a response with a status code and a body that decodes
    as JSON or does not. *)
Inductive http_reply : Type :=
| NoResponse
| Response (status : nat) (body : option json).

Definition post (reply : http_reply) : result (nat * option json) :=
  match reply with
  | NoResponse => Raise RequestException
  | Response status body => Ok (status, body)
  end.

(** [resp.raise_for_status()] raises for the codes 400..599. *)
Definition raise_for_status (status : nat) : result unit :=
  if (400 <=? status) && (status <? 600) then Raise HTTPError else Ok tt.

(** [resp.json()] *)
Definition resp_json (body : option json) : result json :=
  match body with
  | Some data => Ok data
  | None => Raise JSONDecodeError
  end.

(** [data['choices'][0]['message']['content']] *)
Definition chat_content (data : json) : result json :=
  choices <- getitem data "choices" ;;
  first <- getitem0 choices ;;
  message <- getitem first "message" ;;
  getitem message "content".

(** [data.get('choices', [])[0].get('text')] *)
Definition legacy_text (data : json) : result json :=
  choices <- get data "choices" (JArr []) ;;
  first <- getitem0 choices ;;
  get first "text" JNull.

Definition call_llm (reply : http_reply) : result json :=
  '(status, body) <- post reply ;;
  _ <- raise_for_status status ;;
  data <- resp_json body ;;
  match chat_content data with
  | Ok content => Ok content
  | Raise _ => legacy_text data
  end.

(** The first choice of a response, when [choices] is a list that starts
    with an object. *)
Definition first_choice (data : json) : option (list (string * json)) :=
  match data with
  | JObj fields =>
      match lookup fields "choices" with
      | Some (JArr (JObj choice :: _)) => Some choice
      | _ => None
      end
  | _ => None
  end.

(** The value under [message.content] of the first choice, when the
    message is an object with that key. *)
Definition content_field (data : json) : option json :=
  match first_choice data with
  | Some choice =>
      match lookup choice "message" with
      | Some (JObj message) => lookup message "content"
      | _ => None
      end
  | None => None
  end.

Definition is_text (v : json) : bool :=
  match v with
  | JStr _ => true
  | _ => false
  end.

End Llm.

(** ** The turn loop of [main]

    The model starts where the [for turn in range(1, max_turns + 1)] loop
    starts.  What the game process, the remote endpoint and the pexpect
    library do is the environment: for every turn it fixes the HTTP
    exchange of [call_llm], whether [game.sendline] succeeds, and how
    [game.expect(['Score:', pexpect.EOF], timeout=20)] ends.  Everything the
    loop prints, writes or sends is an [event]; time stamps are left out of
    the records, and writes to the open files are taken to succeed. *)

Module Agent.

(** The values of [game.before] and [game.after]: [None], a [str] (the
    child is spawned with [encoding='utf-8']), or one of the exception
    classes [pexpect.EOF] and [pexpect.TIMEOUT]. *)
Inductive attr : Type :=
| ANone
| AStr (s : string)
| AClassEOF
| AClassTIMEOUT.

(** [x or ''] *)
Definition or_empty_str (x : attr) : attr :=
  match x with
  | ANone => AStr ""
  | AStr s => if truthy s then AStr s else AStr ""
  | AClassEOF => AClassEOF
  | AClassTIMEOUT => AClassTIMEOUT
  end.

(** [a + b]: defined between two [str] only. *)
Definition add (a b : attr) : result string :=
  match a, b with
  | AStr x, AStr y => Ok (x ++ y)%string
  | _, _ => Raise TypeError
  end.

(** [(game.before or '') + (getattr(game, 'after', '') or '')] *)
Definition read_output (before after : attr) : result string :=
  add (or_empty_str before) (or_empty_str after).

(** [isinstance(x, bytes)]: no value of a text-mode spawn is [bytes]. *)
Definition isinstance_bytes (x : attr) : bool := false.

Definition is_class_EOF (x : attr) : bool :=
  match x with
  | AClassEOF => true
  | _ => false
  end.

(** What the pexpect library stores in [game.after] when [expect] ends on
    end of file or on its time-out. *)
Record pexpect_lib : Type := mkLib {
  after_eof : attr;
  after_timeout : attr
}.

(** pexpect 4 ([Expecter.eof] and [Expecter.timeout] in pexpect/expect.py)
    stores the exception class itself. *)
Definition pexpect4 : pexpect_lib := mkLib AClassEOF AClassTIMEOUT.

(** The docstring of [spawn.expect] promises [None] instead. *)
Definition pexpect_doc : pexpect_lib := mkLib ANone ANone.

Record config : Type := mkConfig {
  use_mock : bool;
  simple_text : bool;
  simple_log : bool;
  verbose : bool;
  max_turns : nat
}.

(** How [game.expect(['Score:', pexpect.EOF], timeout=20)] ends, with the
    text read before that point. *)
Inductive expect_outcome : Type :=
| Matched (before : string)
| EndOfFile (before : string)
| TimedOut (before : string).

Record turn_env : Type := mkTurnEnv {
  reply : Llm.http_reply;
  sendline_ok : bool;
  expected : expect_outcome
}.

Record pre_record : Type := mkPre {
  pre_turn : nat;
  pre_llm_response_raw : string;
  pre_command : string;
  pre_location : string;
  pre_score : option Z;
  pre_turns : option Z;
  pre_recent_output : string;
  pre_room : option string;
  pre_room_description : string;
  pre_inventory : list string;
  pre_use_mock : bool
}.

Record post_record : Type := mkPost {
  post_turn : nat;
  post_command : string;
  post_game_output : string;
  post_location : string;
  post_score : option Z;
  post_turns : option Z;
  post_room : option string;
  post_room_description : string;
  post_inventory : list string
}.

Record minimal_record : Type := mkMinimal {
  min_turn : nat;
  min_command : string;
  min_result : string
}.

Inductive event : Type :=
| Print (msg : string)
| PrintCommand (turn : nat) (cmd_line : string)
| PrintLogPost (r : post_record)
| PrintLogMinimal (r : minimal_record)
| Transcript (s : string)
| CommandLog (cmd_line : string)
| Ask (turn : nat)
| JsonPre (r : pre_record)
| JsonPost (r : post_record)
| JsonMinimal (r : minimal_record)
| TextLog (turn : nat) (response cmd_line out : string)
| Sendline (turn : nat) (cmd_line : string)
| Close.

(** The [break] statements of the loop. *)
Inductive stop : Type :=
| LLMCallFailed
| EmptyResponse
| NoCommandParsed
| SendFailed.

(** The variables that live across iterations: the [history] list, the
    attributes of [game], and the local [i] of the mock generator. *)
Record loop_state : Type := mkLoop {
  history : list string;
  before : attr;
  after : attr;
  cursor : nat
}.

Inductive flow : Type :=
| Continue (st : loop_state)
| Break (why : stop)
| Uncaught (e : exn).

(** The first line of the response that is not empty once stripped. *)
Definition first_command (response : string) : option string :=
  find truthy (map strip (splitlines response)).

Section Loop.

Variable lib : pexpect_lib.
Variable cfg : config.
Variable env : nat -> turn_env.

(** Python's [str] on a decoded JSON value that is neither [None] nor a
    [str]. *)
Variable py_str : Llm.json -> string.

(** [response is None] gives [''], otherwise [str(response)]. *)
Definition normalize (response : Llm.json) : string :=
  match response with
  | Llm.JNull => EmptyString
  | Llm.JStr s => s
  | v => py_str v
  end.

(** The start of an iteration: read the latest output and extend the
    history. *)
Definition observe (st : loop_state) : result (list event * list string) :=
  recent <- read_output (before st) (after st) ;;
  let recent := strip recent in
  if truthy recent
  then Ok ([Transcript recent], History.append (history st) recent)
  else Ok ([], history st).

Inductive answer : Type :=
| Answered (response : string) (cursor' : nat)
| CallFailed
| CallCrashed (e : exn).

(** [next(mock_gen)], or [call_llm] inside its [try]. *)
Definition consult (turn : nat) (i : nat) : answer :=
  if use_mock cfg then
    match Mock.next i with
    | Ok (r, i') => Answered r i'
    | Raise e => CallCrashed e
    end
  else
    match Llm.call_llm (reply (env turn)) with
    | Ok response => Answered (normalize response) i
    | Raise _ => CallFailed
    end.

(** After a successful [expect]: the [try] body from [out = ...] on. *)
Definition received (turn : nat) (cmd_line response : string)
    (location : string) (score turns : option Z)
    (st : loop_state) : list event * flow :=
  match read_output (before st) (after st) with
  | Raise e => ([], Uncaught e)
  | Ok out =>
      let shown := [Print out; Transcript out] in
      if simple_text cfg then
        (shown ++ [TextLog turn (strip response) cmd_line (strip out)], Continue st)
      else
        match parse_game_state out with
        | Raise e => (shown, Uncaught e)
        | Ok post_state =>
            let written :=
              if simple_log cfg then
                let minimal := mkMinimal turn cmd_line out in
                JsonMinimal minimal
                  :: (if verbose cfg then [PrintLogMinimal minimal] else [])
              else
                let post_record :=
                  mkPost turn cmd_line out location score turns
                    (room post_state) (description post_state)
                    (inventory post_state) in
                JsonPost post_record
                  :: (if verbose cfg then [PrintLogPost post_record] else []) in
            let eof :=
              if isinstance_bytes (after st) && is_class_EOF (after st)
              then [Print "Game ended (EOF)"] else [] in
            (shown ++ written ++ eof, Continue st)
        end
  end.

(** [game.expect(['Score:', pexpect.EOF], timeout=20)] and what follows. *)
Definition await (turn : nat) (cmd_line response : string)
    (location : string) (score turns : option Z)
    (history : list string) (i : nat) : list event * flow :=
  match expected (env turn) with
  | Matched b =>
      received turn cmd_line response location score turns
        (mkLoop history (AStr b) (AStr "Score:") i)
  | EndOfFile b =>
      received turn cmd_line response location score turns
        (mkLoop history (AStr b) (after_eof lib) i)
  | TimedOut b =>
      ([Print "Timeout waiting for game response after command"],
       Continue (mkLoop history (AStr b) (after_timeout lib) i))
  end.

(** From the command on: logs, the pre-send record, [sendline], the wait. *)
Definition act (turn : nat) (cmd_line response : string)
    (location : string) (score turns : option Z)
    (history : list string) (i : nat) : list event * flow :=
  let announced := [PrintCommand turn cmd_line; CommandLog cmd_line] in
  let recent_context :=
    match history with
    | [] => EmptyString
    | _ => join nl (History.context_window history)
    end in
  match parse_game_state recent_context with
  | Raise e => (announced, Uncaught e)
  | Ok state =>
      let pre :=
        if simple_text cfg then []
        else [JsonPre (mkPre turn response cmd_line location score turns
                         recent_context (room state) (description state)
                         (inventory state) (use_mock cfg))] in
      if sendline_ok (env turn) then
        let '(evs, f) :=
          await turn cmd_line response location score turns history i in
        (announced ++ pre ++ Sendline turn cmd_line :: evs, f)
      else
        (announced ++ pre ++ [Print "Failed to send command to game"],
         Break SendFailed)
  end.

(** From the oracle call to the command. *)
Definition decide (turn : nat) (location : string) (score turns : option Z)
    (history : list string) (i : nat) : list event * flow :=
  match consult turn i with
  | CallCrashed e => ([Ask turn], Uncaught e)
  | CallFailed => ([Ask turn; Print "LLM call failed:"], Break LLMCallFailed)
  | Answered response i' =>
      if negb (truthy response) then
        ([Ask turn; Print "LLM returned empty response, stopping"],
         Break EmptyResponse)
      else
        match first_command response with
        | None =>
            ([Ask turn; Print "No command parsed from LLM response; stopping"],
             Break NoCommandParsed)
        | Some cmd_line =>
            let '(evs, f) :=
              act turn cmd_line response location score turns history i' in
            (Ask turn :: evs, f)
        end
  end.

(** One iteration of the loop. *)
Definition turn_body (turn : nat) (st : loop_state) : list event * flow :=
  match observe st with
  | Raise e => ([], Uncaught e)
  | Ok (seen, history) =>
      match parse_banner (join nl (History.banner_window history)) with
      | Raise e => (seen, Uncaught e)
      | Ok (location, score, turns) =>
          let '(evs, f) := decide turn location score turns history (cursor st) in
          (seen ++ evs, f)
      end
  end.

(** How the loop is left. *)
Inductive loop_end : Type :=
| RangeDone (st : loop_state)
| Broke (why : stop)
| Died (e : exn).

(** [n] iterations at most, the first with number [turn]. *)
Fixpoint iterate (n : nat) (turn : nat) (st : loop_state)
  : list event * loop_end :=
  match n with
  | O => ([], RangeDone st)
  | S n' =>
      match turn_body turn st with
      | (evs, Continue st') =>
          let '(evs', e) := iterate n' (S turn) st' in (evs ++ evs', e)
      | (evs, Break why) => (evs, Broke why)
      | (evs, Uncaught e) => (evs, Died e)
      end
  end.

(** How the run ends: the loop is left by [break] or by the end of its
    range and the code after it runs, or an exception leaves [main]. *)
Inductive run_end : Type :=
| Finished (why : option stop)
| Aborted (e : exn).

(** [for turn in range(1, max_turns + 1)] and the code after the loop. *)
Definition main (st : loop_state) : list event * run_end :=
  match iterate (max_turns cfg) 1 st with
  | (evs, RangeDone _) => (evs ++ [Print "Agent finished"; Close], Finished None)
  | (evs, Broke why) => (evs ++ [Print "Agent finished"; Close], Finished (Some why))
  | (evs, Died e) => (evs, Aborted e)
  end.

End Loop.

(** The turn an event belongs to, for the events that carry one. *)
Definition event_turn (ev : event) : option nat :=
  match ev with
  | PrintCommand t _ | Ask t | TextLog t _ _ _ | Sendline t _ => Some t
  | JsonPre r => Some (pre_turn r)
  | JsonPost r | PrintLogPost r => Some (post_turn r)
  | JsonMinimal r | PrintLogMinimal r => Some (min_turn r)
  | Print _ | Transcript _ | CommandLog _ | Close => None
  end.

(** The events of turn [t] or of a later turn. *)
Definition from_turn (t : nat) (ev : event) : bool :=
  match event_turn ev with
  | Some t' => t <=? t'
  | None => false
  end.

(** An event of turn [t], or one that carries no turn. *)
Definition of_turn (t : nat) (ev : event) : Prop :=
  match event_turn ev with
  | Some t' => t' = t
  | None => True
  end.

(** The log records of the run. *)
Definition is_record (ev : event) : bool :=
  match ev with
  | JsonPre _ | JsonPost _ | JsonMinimal _ | TextLog _ _ _ _ => true
  | _ => false
  end.

Definition is_sendline (ev : event) : bool :=
  match ev with
  | Sendline _ _ => true
  | _ => false
  end.

(** The records written after the game's output is received. *)
Definition is_post_record (ev : event) : bool :=
  match ev with
  | JsonPost _ | JsonMinimal _ | TextLog _ _ _ _ => true
  | _ => false
  end.

(** The breaks that follow a failed or unusable answer of the oracle. *)
Definition decision_source_failure (why : stop) : bool :=
  match why with
  | LLMCallFailed | EmptyResponse | NoCommandParsed => true
  | SendFailed => false
  end.

End Agent.

(** ** Sample runs *)

Module Scenario.
Import Agent.

Definition py_str (v : Llm.json) : string := "<value>".

(** A chat-style success response carrying [s]. *)
Definition chat (s : string) : Llm.http_reply :=
  Llm.Response 200
    (Some (Llm.JObj
       [("choices",
         Llm.JArr [Llm.JObj
           [("message", Llm.JObj [("content", Llm.JStr s)])]])])).

(** The state the start-up [expect('Score:')] leaves. *)
Definition start : loop_state :=
  mkLoop [] (AStr "West of House ") (AStr "Score:") Mock.mock_llm_policy.

Definition remote (turns : nat) : config := mkConfig false false false false turns.
Definition mock (turns : nat) : config := mkConfig true false false false turns.

(** The endpoint answers on turn 1 and is unreachable on turn 2. *)
Definition endpoint_down_on_2 (turn : nat) : turn_env :=
  match turn with
  | 1 => mkTurnEnv (chat "look") true (Matched "West of House ")
  | _ => mkTurnEnv Llm.NoResponse true (Matched "Forest ")
  end.

(** The wait of turn 2 times out with some text read. *)
Definition timeout_on_2 (turn : nat) : turn_env :=
  match turn with
  | 2 => mkTurnEnv Llm.NoResponse true (TimedOut "You are in a forest")
  | _ => mkTurnEnv Llm.NoResponse true (Matched "West of House ")
  end.

(** The game closes its output during the wait of turn 2. *)
Definition eof_on_2 (turn : nat) : turn_env :=
  match turn with
  | 2 => mkTurnEnv Llm.NoResponse true (EndOfFile "Goodbye")
  | _ => mkTurnEnv Llm.NoResponse true (Matched "West of House ")
  end.

(** The loop state a finished range leaves; [start] stands for a loop
    left otherwise. *)
Definition state_of (r : list event * loop_end) : loop_state :=
  match snd r with
  | RangeDone st => st
  | _ => start
  end.

End Scenario.

(** ** Auxiliary notions used in the statements *)

(** Every character of [s] satisfies [p]. *)
Fixpoint all_chars (p : ascii -> bool) (s : string) : bool :=
  match s with
  | EmptyString => true
  | String c s' => p c && all_chars p s'
  end.

(** The last character of [s], if any. *)
Fixpoint last_char (s : string) : option ascii :=
  match s with
  | EmptyString => None
  | String c EmptyString => Some c
  | String _ s' => last_char s'
  end.

(** The two integers a line yields when it matches the score pattern. *)
Definition score_turns_of (s : string) : option (Z * Z) :=
  match Re.search_score_turns s with
  | Some (g1, g2) =>
      match py_int g1, py_int g2 with
      | Ok a, Ok b => Some (a, b)
      | _, _ => None
      end
  | None => None
  end.

(** A line whose match holds a numeral of more digits than [int] takes. *)
Definition overlong (s : string) : bool :=
  match Re.search_score_turns s with
  | Some (g1, g2) =>
      (int_max_str_digits <? String.length g1)
      || (int_max_str_digits <? String.length g2)
  | None => false
  end.

(** [c * n]: the character [c], [n] times. *)
Fixpoint times (c : ascii) (n : nat) : string :=
  match n with
  | 0 => EmptyString
  | S n' => String c (times c n')
  end.

(** A status line whose score has one digit more than [int] takes:
    ['Score: ' + '1' * 4301 + ' Turns: 1']. *)
Definition long_score_line : string :=
  ("Score: " ++ times "1" (S int_max_str_digits) ++ " Turns: 1")%string.

(** The lines [parse_banner] looks at: stripped, blank ones left out. *)
Definition banner_lines (text : string) : list string :=
  filter truthy (map strip (splitlines text)).

(** The last defined element of a list of options. *)
Fixpoint last_some {A : Type} (l : list (option A)) : option A :=
  match l with
  | [] => None
  | x :: rest =>
      match last_some rest with
      | Some y => Some y
      | None => x
      end
  end.

(** The first defined element of a list of options. *)
Fixpoint first_some {A : Type} (l : list (option A)) : option A :=
  match l with
  | [] => None
  | Some y :: _ => Some y
  | None :: rest => first_some rest
  end.

(** Score and turns are set together or not at all. *)
Definition paired (score turns : option Z) : Prop :=
  (score = None /\ turns = None)
  \/ (exists a b, score = Some a /\ turns = Some b).

Section Prefixes.
Context {A : Type} (p : A -> bool).

(** The longest prefix whose elements satisfy [p], and the rest. *)
Fixpoint take_while (l : list A) : list A :=
  match l with
  | [] => []
  | x :: l' => if p x then x :: take_while l' else []
  end.

Fixpoint drop_while (l : list A) : list A :=
  match l with
  | [] => []
  | x :: l' => if p x then drop_while l' else l
  end.

End Prefixes.

(** A line that description collection keeps: not blank, not a status
    line, not an inventory introduction. *)
Definition descriptive (l : string) : bool :=
  negb (blank l) && negb (is_status l) && negb (is_inventory_intro l).

(** The items on the introduction line: the text after its first colon,
    stripped and split. *)
Definition items_after_colon (l : string) : list string :=
  match after_first ":"%char l with
  | Some rest => inline_items (strip rest)
  | None => []
  end.

(** The item a following line stands for. *)
Definition item_of_line (l : string) : string := rstrip_dot (strip l).

(** The lines after the room title. *)
Definition body_lines (text : string) : list string :=
  skipn (snd (room_and_index (state_lines text))) (state_lines text).

(** The inventory read at the line that ends the description, when that
    line is neither blank nor a status line. *)
Definition inventory_at (stopped : list string) : list string :=
  match stopped with
  | [] => []
  | l :: rest =>
      if blank l || is_status l then []
      else items_after_colon l
           ++ map item_of_line (take_while (fun l => negb (blank l)) rest)
  end.



(** ** The specification's wording of [extractBanner]

    Kept apart from [parse_banner], to be compared with it. *)

Module Spec.

(** A status line: one that matches the score pattern. *)
Definition is_status_line (s : string) : bool :=
  match score_turns_of s with
  | Some _ => true
  | None => false
  end.

(** Location: the first non-blank line that is not a status line; score
    and turns: from the first line that matches; a field without a line
    stays unset. *)
Definition extractBanner (text : string)
  : option string * option Z * option Z :=
  let m := first_some (map score_turns_of (banner_lines text)) in
  (find (fun s => negb (is_status_line s)) (banner_lines text),
   option_map fst m, option_map snd m).

(** [parse_banner] returns on [text] what the wording describes.  The
    location [parse_banner] returns is a [str] in every case, hence set. *)
Definition banner_as_worded (text : string) : Prop :=
  exists loc sc tu,
    parse_banner text = Ok (loc, sc, tu)
    /\ extractBanner text = (Some loc, sc, tu).

(** The remote [decide] as worded: whatever the endpoint sends, the call
    either raises or returns a text, the completion field of the body. *)
Definition decide_as_worded (reply : Llm.http_reply) : Prop :=
  match Llm.call_llm reply with
  | Raise _ => True
  | Ok v => Llm.is_text v = true
  end.

End Spec.

(** ** Notions used by the further properties *)

(** A line that can be a room title: not empty, not a status line, not a
    diagnostic line. *)
Definition title_line (s : string) : bool :=
  truthy s && negb (is_status s) && negb (startswith s "[").

(** No character of [s] is a line boundary. *)
Definition one_line (s : string) : bool :=
  all_chars (fun c => negb (is_linebreak c)) s.

(** The numbers [parse_banner] finds in a text. *)
Definition banner_score (text : string) : option (Z * Z) :=
  last_some (map score_turns_of (banner_lines text)).

(** ["Score:"], the marker the waits look for, occurs in [s] with a
    character after it. *)
Fixpoint marker_inside (s : string) : bool :=
  match drop_prefix "Score:" s with
  | Some (String _ _) => true
  | _ =>
      match s with
      | EmptyString => false
      | String _ s' => marker_inside s'
      end
  end.

(** No line of the chunk matches the score pattern. *)
Definition quiet (chunk : string) : bool :=
  forallb
    (fun l => match Re.search_score_turns l with Some _ => false | None => true end)
    (banner_lines chunk).

(** The sequence of commands the docstring of [mock_llm_policy] gives. *)
Definition mock_commands : list string :=
  ["look"; "north"; "take lamp"; "open mailbox"; "south"].

Module Trace.
Import Agent.

(** The turns in which the oracle was consulted, in order. *)
Definition asked (evs : list event) : list nat :=
  flat_map (fun ev => match ev with Ask t => [t] | _ => [] end) evs.

(** The commands sent to the game with their turns, in order. *)
Definition sent (evs : list event) : list (nat * string) :=
  flat_map (fun ev => match ev with Sendline t c => [(t, c)] | _ => [] end) evs.

(** The turn and the command a post-receive record is about. *)
Definition post_key (ev : event) : option (nat * string) :=
  match ev with
  | JsonPost r => Some (post_turn r, post_command r)
  | JsonMinimal r => Some (min_turn r, min_command r)
  | TextLog t _ c _ => Some (t, c)
  | _ => None
  end.

(** A post-receive record, if [ev] is one, is about turn [t] and command
    [cmd]. *)
Definition about (t : nat) (cmd : string) (ev : event) : Prop :=
  post_key ev = None \/ post_key ev = Some (t, cmd).

(** What a post-receive record needs: the sending of its command. *)
Definition answered_in (evs : list event) (ev : event) : Prop :=
  match post_key ev with
  | Some key => In key (sent evs)
  | None => True
  end.

(** The records and echoes the logging toggles allow. *)
Definition allowed_by_toggles (cfg : config) (ev : event) : bool :=
  match ev with
  | JsonPre r => negb (simple_text cfg) && Bool.eqb (pre_use_mock r) (use_mock cfg)
  | JsonPost _ => negb (simple_text cfg) && negb (simple_log cfg)
  | PrintLogPost _ =>
      negb (simple_text cfg) && negb (simple_log cfg) && verbose cfg
  | JsonMinimal _ => negb (simple_text cfg) && simple_log cfg
  | PrintLogMinimal _ =>
      negb (simple_text cfg) && simple_log cfg && verbose cfg
  | TextLog _ _ _ _ => simple_text cfg
  | _ => true
  end.

(** [None] or a [str]: what can be added to a [str] once [or ''] is
    applied. *)
Definition str_or_none (x : attr) : bool :=
  match x with
  | ANone | AStr _ => true
  | AClassEOF | AClassTIMEOUT => false
  end.

(** A state as a wait that found the marker leaves it: [game.before]
    holds the text ahead of the marker, [game.after] the marker, and no
    line of the history matches the score pattern. *)
Definition delivered (st : loop_state) : Prop :=
  Forall (fun c => quiet c = true) (history st)
  /\ exists b,
       before st = AStr b /\ contains "Score:" b = false
       /\ after st = AStr "Score:".

End Trace.

(** The start of [main] up to the loop: the wait for the start-up banner
    [game.expect('Score:', timeout=30)] inside [try], the fall-back
    [game.read_nonblocking(size=4096, timeout=1)] in its [except], which
    can raise in turn, and the printing of the banner.  End of file is not
    among the patterns of this wait, so it raises like a time-out does. *)
Module Startup.
Import Agent.

Definition banner (lib : pexpect_lib) (wait : expect_outcome)
    (nonblocking : result string) : result (list event * loop_state) :=
  let shown initial :=
    [Print "Initial banner:"; Print initial; Transcript initial] in
  match wait with
  | Matched b =>
      initial <- read_output (AStr b) (AStr "Score:") ;;
      Ok (shown initial, mkLoop [] (AStr b) (AStr "Score:") Mock.mock_llm_policy)
  | EndOfFile b =>
      initial <- nonblocking ;;
      Ok (shown initial, mkLoop [] (AStr b) (after_eof lib) Mock.mock_llm_policy)
  | TimedOut b =>
      initial <- nonblocking ;;
      Ok (shown initial,
          mkLoop [] (AStr b) (after_timeout lib) Mock.mock_llm_policy)
  end.

(** The banner phase followed by the loop. *)
Definition agent (lib : pexpect_lib) (cfg : config) (env : nat -> turn_env)
    (py_str : Llm.json -> string) (wait : expect_outcome)
    (nonblocking : result string) : list event * run_end :=
  match banner lib wait nonblocking with
  | Raise e => ([], Aborted e)
  | Ok (shown, st0) =>
      let '(evs, e) := main lib cfg env py_str st0 in (shown ++ evs, e)
  end.

End Startup.

Module Scenario2.
Import Agent.

(** Every wait finds the marker and every send succeeds. *)
Definition smooth (turn : nat) : turn_env :=
  mkTurnEnv Llm.NoResponse true (Matched "West of House ").

(** The pipe to the game breaks on turn 2. *)
Definition send_fails_on_2 (turn : nat) : turn_env :=
  match turn with
  | 2 => mkTurnEnv (Scenario.chat "go north") false (Matched "")
  | _ => mkTurnEnv (Scenario.chat "look") true (Matched "West of House ")
  end.

End Scenario2.

Example ex_splitlines :
  splitlines ("a" ++ nl ++ nl ++ "b" ++ String CR nl ++ "c" ++ nl)%string = ["a"; ""; "b"; "c"].
Proof. reflexivity. Qed.

Example ex_banner :
  parse_banner ("Kitchen" ++ nl ++ "Score: 10 Turns: 5" ++ nl)%string
  = Ok ("Kitchen", Some 10%Z, Some 5%Z).
Proof. vm_compute. reflexivity. Qed.

Example ex_game_state :
  parse_game_state
    ("Living Room" ++ nl ++ "You are in a room." ++ nl ++ "You are carrying:"
       ++ nl ++ "a lamp" ++ nl ++ "a sword" ++ nl)%string
  = Ok (mkGameState (Some "Living Room") "You are in a room." ["a lamp"; "a sword"]).
Proof. vm_compute. reflexivity. Qed.

Example ex_game_state_inline :
  parse_game_state
    ("Attic" ++ nl ++ "Dusty." ++ nl ++ "You Are Carrying: a lamp, a sword; a key and  an egg..")%string
  = Ok (mkGameState (Some "Attic") "Dusty." ["a lamp"; "a sword"; "a key"; "an egg"]).
Proof. vm_compute. reflexivity. Qed.

(** ** Facts about the string primitives *)

Lemma span_all_chars (p : ascii -> bool) (s g r : string) :
  span p s = (g, r) -> all_chars p g = true.
Proof.
  revert g r. induction s as [|c s IH]; intros g r H; simpl in H.
  - inversion H. reflexivity.
  - destruct (p c) eqn:Hc.
    + destruct (span p s) as [a b] eqn:Hs. inversion H; subst.
      simpl. rewrite Hc. simpl. eapply IH. reflexivity.
    + inversion H. reflexivity.
Qed.

Lemma digits_value_total (s : string) :
  all_chars isdigit s = true -> forall acc, exists v, digits_value acc s = Ok v.
Proof.
  induction s as [|c s IH]; simpl; intros H acc.
  - exists acc. reflexivity.
  - apply andb_true_iff in H. destruct H as [Hc Hs].
    rewrite Hc. apply IH. exact Hs.
Qed.

Lemma py_int_total (s : string) :
  truthy s = true -> all_chars isdigit s = true ->
  (int_max_str_digits <? String.length s) = false ->
  exists v, py_int s = Ok v.
Proof.
  intros Ht Hd Hl. destruct s as [|c s]; [discriminate|].
  unfold py_int. rewrite Hl. apply digits_value_total. exact Hd.
Qed.

Lemma py_int_overlong (s : string) :
  (int_max_str_digits <? String.length s) = true -> py_int s = Raise ValueError.
Proof.
  intros Hl. destruct s as [|c s]; [reflexivity|].
  unfold py_int. rewrite Hl. reflexivity.
Qed.

(** *** The score pattern needs no backtracking *)

Lemma space_not_digit (c : ascii) : isspace c = true -> isdigit c = false.
Proof.
  destruct c as [[] [] [] [] [] [] [] []]; vm_compute; intros H;
    first [reflexivity | discriminate H].
Qed.

Lemma space_not_T (c : ascii) : isspace c = true -> Ascii.eqb "T" c = false.
Proof.
  destruct c as [[] [] [] [] [] [] [] []]; vm_compute; intros H;
    first [reflexivity | discriminate H].
Qed.

Lemma digit_not_space (c : ascii) : isdigit c = true -> isspace c = false.
Proof.
  destruct c as [[] [] [] [] [] [] [] []]; vm_compute; intros H;
    first [reflexivity | discriminate H].
Qed.

Lemma digit_not_T (c : ascii) : isdigit c = true -> Ascii.eqb "T" c = false.
Proof.
  destruct c as [[] [] [] [] [] [] [] []]; vm_compute; intros H;
    first [reflexivity | discriminate H].
Qed.

Lemma append_empty_r (s : string) : (s ++ "")%string = s.
Proof. induction s as [|c s IH]; simpl; [reflexivity | f_equal; exact IH]. Qed.

Lemma append_cons_r (t : string) (c : ascii) (a : string) :
  ((t ++ String c "") ++ a)%string = (t ++ String c a)%string.
Proof. induction t as [|x t IH]; simpl; [reflexivity | f_equal; exact IH]. Qed.

Lemma lstrip_by_span (p : ascii -> bool) (s : string) :
  lstrip_by p s = snd (span p s).
Proof.
  induction s as [|c s IH]; simpl; [reflexivity|].
  destruct (p c); [|reflexivity].
  rewrite IH. destruct (span p s). reflexivity.
Qed.

(** When the rest of the pattern cannot start with a character of the
    class, giving characters back never helps. *)
Lemma repeat_greedy_longest {R : Type} (cls : ascii -> bool)
    (k : string -> string -> option R) :
  (forall t c r, cls c = true -> k t (String c r) = None) ->
  forall s taken,
    Re.repeat_greedy cls k taken s
    = k (taken ++ fst (span cls s))%string (snd (span cls s)).
Proof.
  intros Hk. induction s as [|c s IH]; intros taken; simpl.
  - rewrite append_empty_r. reflexivity.
  - destruct (cls c) eqn:Hc.
    + rewrite IH. destruct (span cls s) as [a b]. simpl.
      rewrite append_cons_r.
      destruct (k (taken ++ String c a)%string b); [reflexivity|].
      apply Hk. exact Hc.
    + simpl. rewrite append_empty_r. reflexivity.
Qed.

Lemma truthy_append_cons (t : string) (c : ascii) (a : string) :
  truthy (t ++ String c a) = true.
Proof. destruct t; reflexivity. Qed.

(** When the rest of the pattern accepts whatever non-empty run it is
    given, the longest run is the one taken. *)
Lemma repeat_greedy_longest_last {R : Type} (cls : ascii -> bool)
    (k : string -> string -> option R) :
  (forall t r, truthy t = true -> k t r <> None) ->
  forall s taken,
    Re.repeat_greedy cls k taken s
    = k (taken ++ fst (span cls s))%string (snd (span cls s)).
Proof.
  intros Hk. induction s as [|c s IH]; intros taken; simpl.
  - rewrite append_empty_r. reflexivity.
  - destruct (cls c) eqn:Hc.
    + rewrite IH. destruct (span cls s) as [a b]. simpl.
      rewrite append_cons_r.
      destruct (k (taken ++ String c a)%string b) eqn:Hr; [reflexivity|].
      exfalso. apply (Hk _ _ (truthy_append_cons taken c a) Hr).
    + simpl. rewrite append_empty_r. reflexivity.
Qed.

Lemma span_digit_at_non_digit (c : ascii) (r : string) :
  isdigit c = false -> span isdigit (String c r) = (EmptyString, String c r).
Proof. intros H. simpl. rewrite H. reflexivity. Qed.

Lemma drop_Turns_non_T (c : ascii) (r : string) :
  Ascii.eqb "T" c = false -> drop_prefix "Turns:" (String c r) = None.
Proof.
  intros H.
  change (drop_prefix "Turns:" (String c r))
    with (if Ascii.eqb "T" c then drop_prefix "urns:" r else None).
  rewrite H. reflexivity.
Qed.

(** The backtracking match of the score pattern is the match in which
    every repetition takes its longest run. *)
Lemma score_turns_here_longest (s : string) :
  Re.score_turns_here s = Re.score_turns_longest s.
Proof.
  unfold Re.score_turns_here, Re.score_turns_longest, Re.score_pattern.
  cbn [Re.match_atoms].
  destruct (drop_prefix "Score:" s) as [r1|]; [|reflexivity].
  rewrite repeat_greedy_longest.
  2:{ intros t c r Hc. rewrite repeat_greedy_longest.
      - rewrite (span_digit_at_non_digit c r (space_not_digit c Hc)).
        reflexivity.
      - intros t' c' r' Hc'. destruct (truthy t'); [|reflexivity].
        rewrite repeat_greedy_longest.
        + rewrite <- lstrip_by_span. unfold lstrip_by.
          rewrite (digit_not_space c' Hc').
          rewrite (drop_Turns_non_T c' r' (digit_not_T c' Hc')). reflexivity.
        + intros t'' c'' r'' Hc''.
          rewrite (drop_Turns_non_T c'' r'' (space_not_T c'' Hc'')). reflexivity. }
  rewrite <- lstrip_by_span. fold lstrip.
  rewrite repeat_greedy_longest.
  2:{ intros t' c' r' Hc'. destruct (truthy t'); [|reflexivity].
      rewrite repeat_greedy_longest.
      - rewrite <- lstrip_by_span. unfold lstrip_by.
        rewrite (digit_not_space c' Hc').
        rewrite (drop_Turns_non_T c' r' (digit_not_T c' Hc')). reflexivity.
      - intros t'' c'' r'' Hc''.
        rewrite (drop_Turns_non_T c'' r'' (space_not_T c'' Hc'')). reflexivity. }
  cbn [append].
  destruct (span isdigit (lstrip r1)) as [g1 r2]. cbn [fst snd].
  destruct (truthy g1); [|reflexivity].
  rewrite repeat_greedy_longest
    by (intros t c r Hc;
        rewrite (drop_Turns_non_T c r (space_not_T c Hc)); reflexivity).
  rewrite <- lstrip_by_span. fold lstrip.
  destruct (drop_prefix "Turns:" (lstrip r2)) as [r3|]; [|reflexivity].
  rewrite repeat_greedy_longest.
  2:{ intros t c r Hc. rewrite repeat_greedy_longest_last.
      - rewrite (span_digit_at_non_digit c r (space_not_digit c Hc)).
        reflexivity.
      - intros t' r' Ht'. rewrite Ht'. discriminate. }
  rewrite <- lstrip_by_span. fold lstrip.
  rewrite repeat_greedy_longest_last
    by (intros t' r' Ht'; rewrite Ht'; discriminate).
  cbn [append].
  destruct (span isdigit (lstrip r3)) as [g2 r4]. cbn [fst snd].
  destruct (truthy g2); reflexivity.
Qed.

Lemma score_turns_here_groups (s g1 g2 : string) :
  Re.score_turns_here s = Some (g1, g2) ->
  (truthy g1 = true /\ all_chars isdigit g1 = true)
  /\ (truthy g2 = true /\ all_chars isdigit g2 = true).
Proof.
  rewrite score_turns_here_longest. unfold Re.score_turns_longest.
  destruct (drop_prefix "Score:" s) as [r1|]; [|discriminate].
  destruct (span isdigit (lstrip r1)) as [a r2] eqn:H1.
  destruct (truthy a) eqn:Ha; [|discriminate].
  destruct (drop_prefix "Turns:" (lstrip r2)) as [r3|]; [|discriminate].
  destruct (span isdigit (lstrip r3)) as [b r4] eqn:H2.
  destruct (truthy b) eqn:Hb; [|discriminate].
  intros H. inversion H; subst.
  repeat split; eauto using span_all_chars.
Qed.

Lemma search_score_turns_groups (s g1 g2 : string) :
  Re.search_score_turns s = Some (g1, g2) ->
  (truthy g1 = true /\ all_chars isdigit g1 = true)
  /\ (truthy g2 = true /\ all_chars isdigit g2 = true).
Proof.
  induction s as [|c s IH]; simpl.
  - intros H. vm_compute in H. discriminate.
  - destruct (Re.score_turns_here (String c s)) as [m|] eqn:Hm.
    + intros H. inversion H; subst. eapply score_turns_here_groups; eauto.
    + exact IH.
Qed.

(** A line that matches yields two integers unless one of its numerals is
    longer than [int] takes. *)
Lemma score_turns_of_search (s g1 g2 : string) :
  Re.search_score_turns s = Some (g1, g2) ->
  overlong s = false ->
  exists a b, py_int g1 = Ok a /\ py_int g2 = Ok b /\ score_turns_of s = Some (a, b).
Proof.
  intros H Ho. destruct (search_score_turns_groups _ _ _ H) as [[T1 D1] [T2 D2]].
  unfold overlong in Ho. rewrite H in Ho. apply orb_false_iff in Ho.
  destruct Ho as [L1 L2].
  destruct (py_int_total _ T1 D1 L1) as [a Ha].
  destruct (py_int_total _ T2 D2 L2) as [b Hb].
  exists a, b. unfold score_turns_of. rewrite H, Ha, Hb. auto.
Qed.

Lemma overlong_raises (s g1 g2 : string) :
  Re.search_score_turns s = Some (g1, g2) ->
  overlong s = true ->
  (score <- py_int g1 ;; turns <- py_int g2 ;; Ok (score, turns)) = Raise ValueError.
Proof.
  intros H Ho. destruct (search_score_turns_groups _ _ _ H) as [[T1 D1] [T2 D2]].
  unfold overlong in Ho. rewrite H in Ho.
  destruct (int_max_str_digits <? String.length g1) eqn:L1.
  - rewrite (py_int_overlong _ L1). reflexivity.
  - destruct (py_int_total _ T1 D1 L1) as [a Ha]. rewrite Ha.
    simpl in Ho. rewrite (py_int_overlong _ Ho). reflexivity.
Qed.

Lemma overlong_matches (s : string) :
  Re.search_score_turns s = None -> overlong s = false.
Proof. intros H. unfold overlong. rewrite H. reflexivity. Qed.

(** ** Facts about [parse_banner] *)

(** What one iteration does, case by case. *)
Lemma banner_line_cases (st : banner_vars) (line : string) :
  (truthy (strip line) = false /\ banner_line st line = Ok st)
  \/ (truthy (strip line) = true /\ overlong (strip line) = false /\
      exists loc,
        loc = match bv_location st with None => Some (strip line) | Some l => Some l end /\
        ((score_turns_of (strip line) = None /\
          banner_line st line = Ok (mkBannerVars loc (bv_score st) (bv_turns st)))
         \/ (exists a b, score_turns_of (strip line) = Some (a, b) /\
             banner_line st line = Ok (mkBannerVars loc (Some a) (Some b)))))
  \/ (truthy (strip line) = true /\ overlong (strip line) = true /\
      banner_line st line = Raise ValueError).
Proof.
  unfold banner_line.
  destruct (truthy (strip line)) eqn:Ht; simpl; [right|left; auto].
  destruct (Re.search_score_turns (strip line)) as [[g1 g2]|] eqn:Hs.
  - destruct (overlong (strip line)) eqn:Ho.
    + right. split; [reflexivity|]. split; [reflexivity|].
      pose proof (overlong_raises _ _ _ Hs Ho) as Hr.
      destruct (py_int g1) as [a|e]; simpl in *.
      * destruct (py_int g2) as [b|e]; simpl in *; [discriminate|].
        inversion Hr. reflexivity.
      * inversion Hr. reflexivity.
    + left. split; [reflexivity|]. split; [reflexivity|].
      eexists. split; [reflexivity|]. right.
      destruct (score_turns_of_search _ _ _ Hs Ho) as (a & b & Ha & Hb & Hst).
      exists a, b. rewrite Ha, Hb. simpl. auto.
  - left. split; [reflexivity|]. split; [apply overlong_matches; exact Hs|].
    eexists. split; [reflexivity|].
    left. unfold score_turns_of. rewrite Hs. auto.
Qed.

Lemma banner_loop_paired (lines : list string) :
  forall st st', banner_loop st lines = Ok st' ->
    paired (bv_score st) (bv_turns st) -> paired (bv_score st') (bv_turns st').
Proof.
  induction lines as [|l ls IH]; intros st st'; simpl.
  - intros H. inversion H; subst. auto.
  - destruct (banner_line_cases st l)
      as [[_ H]|[(_ & _ & loc & _ & [[_ H]|(a & b & _ & H)])|(_ & _ & H)]];
      rewrite H; simpl; intros Hl Hp; try discriminate; eapply IH; eauto.
    right. simpl. eauto.
Qed.

Lemma last_some_in {A : Type} (l : list (option A)) (x : A) :
  last_some l = Some x -> In (Some x) l.
Proof.
  induction l as [|y l IH]; simpl; [discriminate|].
  destruct (last_some l) as [z|].
  - intros H. right. apply IH. exact H.
  - intros H. left. exact H.
Qed.

(** The loop stops with [ValueError] at the first line with a numeral
    [int] refuses; without such a line it leaves in [location] the first
    line that is not blank, and in [score] and [turns] the numbers of the
    last line that matches. *)
Lemma banner_loop_eq (lines : list string) :
  forall st,
    banner_loop st lines
    = if existsb overlong (filter truthy (map strip lines))
      then Raise ValueError
      else
        Ok (mkBannerVars
            (match bv_location st with
             | Some l => Some l
             | None => hd_error (filter truthy (map strip lines))
             end)
            (match last_some (map score_turns_of (filter truthy (map strip lines))) with
             | Some m => Some (fst m)
             | None => bv_score st
             end)
            (match last_some (map score_turns_of (filter truthy (map strip lines))) with
             | Some m => Some (snd m)
             | None => bv_turns st
             end)).
Proof.
  induction lines as [|l ls IH]; intros st; simpl.
  - destruct st as [[x|] y z]; reflexivity.
  - destruct (banner_line_cases st l)
      as [[Hb H]|[(Hb & Ho & loc & Hloc & [[Hn H]|(a & b & Hm & H)])|(Hb & Ho & H)]];
      rewrite H; simpl; try rewrite IH; rewrite Hb; simpl; try rewrite Ho; simpl.
    + reflexivity.
    + destruct (existsb overlong _); [reflexivity|].
      rewrite Hn. subst loc.
      destruct (last_some _) as [m|];
        destruct (bv_location st); reflexivity.
    + destruct (existsb overlong _); [reflexivity|].
      rewrite Hm. subst loc.
      destruct (last_some _) as [m|];
        destruct (bv_location st); reflexivity.
    + reflexivity.
Qed.

Lemma hd_error_filter_truthy (l : list string) :
  or_empty (hd_error (filter truthy l)) = hd EmptyString (filter truthy l).
Proof.
  induction l as [|x l IH]; simpl; [reflexivity|].
  destruct (truthy x) eqn:Hx; simpl; [rewrite Hx; reflexivity | exact IH].
Qed.

(** [parse_banner] in closed form. *)
Lemma parse_banner_cases (text : string) :
  parse_banner text
  = if existsb overlong (banner_lines text) then Raise ValueError
    else Ok (hd EmptyString (banner_lines text),
             option_map fst (last_some (map score_turns_of (banner_lines text))),
             option_map snd (last_some (map score_turns_of (banner_lines text)))).
Proof.
  unfold parse_banner. rewrite banner_loop_eq. fold (banner_lines text).
  destruct (existsb overlong (banner_lines text)); [reflexivity|]. simpl.
  unfold banner_lines. rewrite hd_error_filter_truthy.
  destruct (last_some _) as [m|]; reflexivity.
Qed.

Lemma parse_banner_eq (text : string) :
  existsb overlong (banner_lines text) = false ->
  parse_banner text
  = Ok (hd EmptyString (banner_lines text),
        option_map fst (last_some (map score_turns_of (banner_lines text))),
        option_map snd (last_some (map score_turns_of (banner_lines text)))).
Proof. intros H. rewrite parse_banner_cases, H. reflexivity. Qed.

(** A result of [parse_banner] is the closed form, and no line of the text
    was refused by [int]. *)
Lemma parse_banner_ok (text : string) (r : string * option Z * option Z) :
  parse_banner text = Ok r ->
  existsb overlong (banner_lines text) = false
  /\ r = (hd EmptyString (banner_lines text),
          option_map fst (last_some (map score_turns_of (banner_lines text))),
          option_map snd (last_some (map score_turns_of (banner_lines text)))).
Proof.
  rewrite parse_banner_cases.
  destruct (existsb overlong (banner_lines text)); [discriminate|].
  intros H. inversion H. auto.
Qed.

(** [parse_banner] fails in one way only. *)
Lemma parse_banner_raise (text : string) (e : exn) :
  parse_banner text = Raise e ->
  e = ValueError /\ existsb overlong (banner_lines text) = true.
Proof.
  rewrite parse_banner_cases.
  destruct (existsb overlong (banner_lines text)); [|discriminate].
  intros H. inversion H. auto.
Qed.

(** C2 as worded fails: a leading status line is taken as the location
    (the wording skips it), the last matching line wins (the wording takes
    the first), and without any line the location is the empty string (the
    wording leaves it unset). *)
Lemma parse_banner_not_as_worded :
  ~ Spec.banner_as_worded ("Score: 10 Turns: 5" ++ nl ++ "Kitchen")%string
  /\ ~ Spec.banner_as_worded
         ("Kitchen" ++ nl ++ "Score: 1 Turns: 2" ++ nl ++ "Score: 3 Turns: 4")%string
  /\ ~ Spec.banner_as_worded "".
Proof.
  repeat split; intros (loc & sc & tu & H1 & H2);
    vm_compute in H1; vm_compute in H2;
    inversion H1; subst; discriminate H2.
Qed.

(** C2, amended: on a text none of whose lines holds a numeral longer than
    [int] takes, [parse_banner] returns; its location is the first
    non-blank line, stripped, whether or not it is a status line, and the
    empty string when every line is blank; score and turns are the integers
    of the last line matching [Score: <int> Turns: <int>], and both are
    unset when no line matches.  On the other texts it returns nothing:
    [int] raises [ValueError].  On the text of the specification's example
    the result is Kitchen, 10, 5. *)
Theorem parse_banner_first_line_last_match (text : string) :
  parse_banner text
  = (if existsb overlong (banner_lines text) then Raise ValueError
     else Ok (hd EmptyString (banner_lines text),
              option_map fst (last_some (map score_turns_of (banner_lines text))),
              option_map snd (last_some (map score_turns_of (banner_lines text)))))
  /\ parse_banner ("Kitchen" ++ nl ++ "Score: 10 Turns: 5" ++ nl)%string
     = Ok ("Kitchen", Some 10%Z, Some 5%Z).
Proof.
  split; [apply parse_banner_cases | vm_compute; reflexivity].
Qed.

(** C10: in a result of [parse_banner] score and turns are both set or
    both unset; when set, they are the two integers of one and the same
    line of the text.  There is no result only when a line holds a numeral
    longer than [int] takes. *)
Theorem parse_banner_score_turns_paired (text : string) :
  match parse_banner text with
  | Ok (loc, sc, tu) =>
      paired sc tu
      /\ ~ (sc = None /\ tu <> None)
      /\ ~ (sc <> None /\ tu = None)
      /\ (forall a b, sc = Some a -> tu = Some b ->
            exists line, In line (banner_lines text)
                         /\ score_turns_of line = Some (a, b))
  | Raise e => e = ValueError /\ existsb overlong (banner_lines text) = true
  end.
Proof.
  rewrite parse_banner_cases.
  destruct (existsb overlong (banner_lines text)); [auto|].
  destruct (last_some (map score_turns_of (banner_lines text))) as [[a b]|] eqn:Hl;
    simpl.
  - split; [right; eauto|]. split; [intros [H _]; discriminate|].
    split; [intros [_ H]; discriminate|].
    intros a' b' Ha Hb. inversion Ha; inversion Hb; subst.
    apply last_some_in in Hl. apply in_map_iff in Hl.
    destruct Hl as (line & Hm & Hin). eauto.
  - split; [left; auto|]. split; [intros [_ H]; congruence|].
    split; [intros [H _]; congruence|]. intros a b H; discriminate.
Qed.

(** ** Facts about [parse_game_state] *)

Lemma rstrip_by_idem (p : ascii -> bool) (s : string) :
  rstrip_by p (rstrip_by p s) = rstrip_by p s.
Proof.
  induction s as [|c s IH]; simpl; [reflexivity|].
  destruct (rstrip_by p s) as [|d r] eqn:Hr.
  - destruct (p c) eqn:Hc; simpl; [reflexivity | rewrite Hc; reflexivity].
  - simpl in *. rewrite IH. reflexivity.
Qed.

Lemma rstrip_by_last (p : ascii -> bool) (s : string) (c : ascii) :
  last_char (rstrip_by p s) = Some c -> p c = false.
Proof.
  induction s as [|a s IH]; simpl; [discriminate|].
  destruct (rstrip_by p s) as [|d r] eqn:Hr.
  - destruct (p a) eqn:Ha; simpl; [discriminate|].
    intros H. inversion H; subst. exact Ha.
  - simpl. exact IH.
Qed.


Lemma prefix_char (c a : ascii) (s : string) :
  String.prefix (String c EmptyString) (String a s) = Ascii.eqb a c.
Proof.
  simpl. destruct (ascii_dec c a) as [E|E].
  - subst. rewrite Ascii.eqb_refl. destruct s; reflexivity.
  - symmetry. apply Ascii.eqb_neq. congruence.
Qed.

Lemma contains_char_after_first (c : ascii) (s : string) :
  contains (String c EmptyString) s = true ->
  exists r, after_first c s = Some r.
Proof.
  induction s as [|a s IH]; [discriminate|].
  intros H. change (contains (String c "") (String a s))
    with (String.prefix (String c "") (String a s) || contains (String c "") s) in H.
  rewrite prefix_char in H. simpl.
  destruct (Ascii.eqb a c); [eauto | apply IH; exact H].
Qed.

Lemma after_first_contains_char (c : ascii) (s : string) :
  contains (String c EmptyString) s = false -> after_first c s = None.
Proof.
  induction s as [|a s IH]; [reflexivity|].
  intros H. change (contains (String c "") (String a s))
    with (String.prefix (String c "") (String a s) || contains (String c "") s) in H.
  rewrite prefix_char in H. simpl.
  destruct (Ascii.eqb a c); [discriminate | apply IH; exact H].
Qed.

Lemma inline_items_empty : inline_items EmptyString = [].
Proof. reflexivity. Qed.

(** The guarded [split(':', 1)[1]] always finds its second element. *)
Lemma inline_inventory_eq (s : string) :
  inline_inventory s = Ok (items_after_colon s).
Proof.
  unfold inline_inventory, items_after_colon, split1_second.
  destruct (contains ":" s) eqn:Hc.
  - destruct (contains_char_after_first _ _ Hc) as [r Hr]. rewrite Hr. simpl.
    destruct (strip r) eqn:Hs; simpl; reflexivity.
  - rewrite (after_first_contains_char _ _ Hc). reflexivity.
Qed.

Lemma following_items_eq (rest : list string) :
  following_items rest
  = map item_of_line (take_while (fun l => negb (blank l)) rest).
Proof.
  induction rest as [|l rest IH]; simpl; [reflexivity|].
  unfold blank. destruct (truthy (strip l)); simpl; [rewrite IH|]; reflexivity.
Qed.

Lemma gather_eq (rest : list string) :
  Forall (fun l => rstrip l = l) rest ->
  forall acc,
    gather rest acc
    = Ok (acc ++ take_while descriptive rest,
          inventory_at (drop_while descriptive rest)).
Proof.
  induction 1 as [|l rest Hl _ IH]; intros acc; simpl.
  - rewrite app_nil_r. reflexivity.
  - rewrite Hl. unfold descriptive at 1 3. unfold blank.
    destruct (truthy (strip l)) eqn:Ht; simpl.
    + destruct (is_status l) eqn:Hs; simpl.
      * unfold blank. rewrite Ht, Hs, app_nil_r. reflexivity.
      * destruct (is_inventory_intro l) eqn:Hi; simpl.
        -- unfold blank. rewrite Ht, Hs, app_nil_r. simpl.
           rewrite inline_inventory_eq, following_items_eq. reflexivity.
        -- rewrite IH, <- app_assoc. reflexivity.
    + unfold blank. rewrite Ht, app_nil_r. reflexivity.
Qed.

Lemma state_lines_rstripped (text : string) :
  Forall (fun l => rstrip l = l) (state_lines text).
Proof.
  unfold state_lines. apply Forall_forall. intros l Hin.
  apply in_map_iff in Hin. destruct Hin as (x & Hx & _). subst.
  apply rstrip_by_idem.
Qed.

Lemma Forall_skipn {A : Type} (P : A -> Prop) (n : nat) (l : list A) :
  Forall P l -> Forall P (skipn n l).
Proof.
  revert l. induction n as [|n IH]; intros l H; simpl; [exact H|].
  destruct H; [constructor | apply IH; assumption].
Qed.

Lemma truthy_strip (s : string) : truthy (strip s) = true -> truthy s = true.
Proof. destruct s; [discriminate | reflexivity]. Qed.

Lemma filter_truthy_descriptive (l : list string) :
  filter truthy (take_while descriptive l) = take_while descriptive l.
Proof.
  induction l as [|x l IH]; simpl; [reflexivity|].
  destruct (descriptive x) eqn:Hd; simpl; [|reflexivity].
  unfold descriptive, blank in Hd.
  destruct (truthy (strip x)) eqn:Ht; [|discriminate].
  rewrite (truthy_strip _ Ht), IH. reflexivity.
Qed.

(** [parse_game_state] in closed form. *)
Lemma parse_game_state_eq (text : string) :
  parse_game_state text
  = Ok (mkGameState
          (fst (room_and_index (state_lines text)))
          (strip (join " " (take_while descriptive (body_lines text))))
          (inventory_at (drop_while descriptive (body_lines text)))).
Proof.
  unfold parse_game_state, body_lines.
  destruct text as [|c text]; [reflexivity|].
  cbv [truthy negb].
  destruct (room_and_index (state_lines (String c text))) as [r idx] eqn:Hr.
  rewrite gather_eq
    by (apply Forall_skipn, state_lines_rstripped).
  cbv [bind fst snd app]. unfold join_description.
  rewrite filter_truthy_descriptive. reflexivity.
Qed.

(** *** The inline split leaves no separator inside an item *)









Lemma lstrip_by_suffix (p : ascii -> bool) (s : string) :
  exists u, s = (u ++ lstrip_by p s)%string.
Proof.
  induction s as [|c s [u IH]]; simpl.
  - exists EmptyString. reflexivity.
  - destruct (p c).
    + exists (String c u). simpl. f_equal. exact IH.
    + exists EmptyString. reflexivity.
Qed.

Lemma rstrip_by_prefix (p : ascii -> bool) (s : string) :
  exists v, s = (rstrip_by p s ++ v)%string.
Proof.
  induction s as [|c s [v IH]]; simpl.
  - exists EmptyString. reflexivity.
  - destruct (rstrip_by p s) as [|d r] eqn:Hr.
    + destruct (p c).
      * exists (String c s). reflexivity.
      * exists s. reflexivity.
    + exists v. simpl. f_equal. exact IH.
Qed.










(** C3: [parse_game_state] never raises, whatever the text: the guarded
    index [split(':', 1)[1]] always exists; on the empty string it returns
    room unset, description "" and inventory [].  [parse_banner] returns
    its defaults on the empty string and a result on every text without a
    numeral longer than [int] takes, but on the status line
    ['Score: ' + '1' * 4301 + ' Turns: 1'] the pattern matches and
    [int(m.group(1))] raises [ValueError], which nothing catches. *)
Theorem parse_banner_raises_on_long_numeral :
  parse_banner long_score_line = Raise ValueError
  /\ raises (parse_banner long_score_line) = true
  /\ (forall text, raises (parse_game_state text) = false)
  /\ (forall text, exists g, parse_game_state text = Ok g)
  /\ parse_game_state "" = Ok (mkGameState None "" [])
  /\ parse_banner "" = Ok ("", None, None)
  /\ (forall text, existsb overlong (banner_lines text) = false ->
        exists b, parse_banner text = Ok b)
  /\ (forall text e, parse_banner text = Raise e ->
        e = ValueError /\ existsb overlong (banner_lines text) = true).
Proof.
  assert (H : parse_banner long_score_line = Raise ValueError)
    by (vm_compute; reflexivity).
  split; [exact H|]. split; [rewrite H; reflexivity|].
  split; [intros text; rewrite parse_game_state_eq; reflexivity|].
  split; [intros text; rewrite parse_game_state_eq; eauto|].
  split; [vm_compute; reflexivity|].
  split; [vm_compute; reflexivity|].
  split; [intros text Ht; rewrite (parse_banner_eq _ Ht); eauto|].
  apply parse_banner_raise.
Qed.

(** ** The rolling history *)

Module HistoryFacts.
Import History.

Section Facts.
Context {A : Type}.
Implicit Types (h chunks : list A) (x : A).

Lemma append_skipn h x :
  List.length h <= 12 ->
  append h x = skipn (List.length (h ++ [x]) - 12) (h ++ [x]).
Proof.
  intros Hh. unfold append, last_n.
  destruct (12 <? List.length (h ++ [x])) eqn:Hlt.
  - reflexivity.
  - apply Nat.ltb_ge in Hlt.
    replace (List.length (h ++ [x]) - 12) with 0 by lia. reflexivity.
Qed.

Lemma append_length h x :
  List.length h <= 12 -> List.length (append h x) <= 12.
Proof.
  intros Hh. rewrite append_skipn by exact Hh.
  rewrite length_skipn. rewrite length_app in *. simpl. lia.
Qed.

(** After any appends the buffer is the tail of everything it was given. *)
Lemma append_all_skipn chunks :
  forall h, List.length h <= 12 ->
    append_all h chunks
    = skipn (List.length (h ++ chunks) - 12) (h ++ chunks).
Proof.
  induction chunks as [|x cs IH]; intros h Hh.
  - unfold append_all. simpl. rewrite app_nil_r.
    replace (List.length h - 12) with 0 by lia. reflexivity.
  - change (append_all h (x :: cs)) with (append_all (append h x) cs).
    rewrite IH by (apply append_length; exact Hh).
    rewrite append_skipn by exact Hh.
    replace (h ++ x :: cs) with ((h ++ [x]) ++ cs)
      by (rewrite <- app_assoc; reflexivity).
    set (L := h ++ [x]).
    assert (HL : List.length L = S (List.length h))
      by (unfold L; rewrite length_app; simpl; lia).
    set (k := List.length L - 12).
    assert (Hk : skipn k L ++ cs = skipn k (L ++ cs)).
    { rewrite skipn_app. replace (k - List.length L) with 0 by lia. reflexivity. }
    rewrite Hk, skipn_skipn. f_equal.
    rewrite length_skipn, !length_app. lia.
Qed.

Lemma last_n_skipn n h :
  last_n (S n) h = skipn (List.length h - S n) h.
Proof. reflexivity. Qed.

Lemma last_n_length n h :
  List.length (last_n (S n) h) = Nat.min (S n) (List.length h).
Proof. rewrite last_n_skipn, length_skipn. lia. Qed.

Lemma last_n_suffix n h :
  h = firstn (List.length h - S n) h ++ last_n (S n) h.
Proof. rewrite last_n_skipn. symmetry. apply firstn_skipn. Qed.

End Facts.
End HistoryFacts.

(** C4: starting from the empty history, after any sequence of appends the
    buffer holds at most 12 entries, and they are exactly the last entries
    appended, in the order of their insertion, duplicates kept: entries
    leave from the old end only.  One append to a full buffer drops its
    oldest entry and nothing else.  A window of the [n] most recent entries
    ([n] at least 1; the loop takes 4 and 6) has [min n length] entries, is
    the tail of the buffer in its order, and is computed without changing
    the buffer. *)
Theorem history_bounded_fifo (chunks : list string) :
  List.length (History.append_all [] chunks) <= 12
  /\ History.append_all [] chunks = skipn (List.length chunks - 12) chunks
  /\ (exists evicted, chunks = evicted ++ History.append_all [] chunks)
  /\ (forall (oldest x : string) (h : list string),
        List.length (oldest :: h) = 12 ->
        History.append (oldest :: h) x = h ++ [x])
  /\ (forall (x : string) (h : list string),
        List.length h < 12 -> History.append h x = h ++ [x])
  /\ (forall (n : nat) (h : list string),
        List.length (History.last_n (S n) h) = Nat.min (S n) (List.length h)
        /\ h = firstn (List.length h - S n) h ++ History.last_n (S n) h)
  /\ (forall h : list string,
        List.length (History.banner_window h) = Nat.min 4 (List.length h)
        /\ List.length (History.context_window h) = Nat.min 6 (List.length h)).
Proof.
  assert (E : History.append_all [] chunks = skipn (List.length chunks - 12) chunks).
  { rewrite (HistoryFacts.append_all_skipn chunks []) by (simpl; lia). reflexivity. }
  split; [rewrite E, length_skipn; lia|].
  split; [exact E|].
  split.
  { exists (firstn (List.length chunks - 12) chunks).
    rewrite E. symmetry. apply firstn_skipn. }
  split.
  { intros oldest x h Hlen.
    rewrite HistoryFacts.append_skipn by lia.
    assert (H1 : List.length ((oldest :: h) ++ [x]) - 12 = 1)
      by (rewrite length_app; simpl in *; lia).
    rewrite H1. reflexivity. }
  split.
  { intros x h Hlen. rewrite HistoryFacts.append_skipn by lia.
    assert (H0 : List.length (h ++ [x]) - 12 = 0)
      by (rewrite length_app; simpl; lia).
    rewrite H0. reflexivity. }
  split.
  { intros n h. split;
      [apply HistoryFacts.last_n_length | apply HistoryFacts.last_n_suffix]. }
  intros h. split; apply HistoryFacts.last_n_length.
Qed.

(** ** The mock policy *)

Module MockFacts.
Import Mock.

Lemma next_eq (i : nat) : next i = Ok (canned i, S i).
Proof.
  unfold next, getitem, canned.
  assert (Hlt : i mod List.length responses < List.length responses)
    by (apply Nat.mod_upper_bound; discriminate).
  rewrite (nth_error_nth' responses EmptyString Hlt). reflexivity.
Qed.

Lemma calls_eq (n : nat) : forall i, calls n i = Ok (map canned (seq i n)).
Proof.
  induction n as [|n IH]; intros i; simpl; [reflexivity|].
  rewrite next_eq. simpl. rewrite IH. reflexivity.
Qed.

Lemma canned_period (j : nat) : canned (j + List.length responses) = canned j.
Proof.
  unfold canned. f_equal.
  replace (j + List.length responses) with (j + 1 * List.length responses) by lia.
  apply Nat.Div0.mod_add.
Qed.

Lemma calls_period (n : nat) :
  forall i, calls n (i + List.length responses) = calls n i.
Proof.
  induction n as [|n IH]; intros i; simpl; [reflexivity|].
  rewrite !next_eq. simpl. rewrite canned_period.
  change (S (i + 5)) with (S i + List.length responses).
  rewrite IH. reflexivity.
Qed.

Lemma calls_app (a b : nat) :
  forall i, calls (a + b) i
            = Ok (map canned (seq i a) ++ map canned (seq (i + a) b)).
Proof.
  intros i. rewrite calls_eq, Nat.add_comm, <- map_app.
  rewrite Nat.add_comm, seq_app. reflexivity.
Qed.

End MockFacts.

(** C5: each call of the mock policy returns the canned response at its
    cursor modulo the number [k] of responses and moves the cursor by
    exactly one; the generator takes no argument, and in mock mode the
    answer the loop gets depends on nothing but the cursor.  Hence call
    number [m + 1] of a fresh generator returns element [m mod k], the
    outputs have period [k], and [2k] calls give the outputs of [k] calls
    twice. *)
Theorem mock_policy_cycles :
  (forall i, Mock.next i
             = Ok (nth (i mod List.length Mock.responses) Mock.responses EmptyString,
                   S i))
  /\ (forall m, exists outs,
        Mock.calls (S m) Mock.mock_llm_policy = Ok outs
        /\ List.length outs = S m
        /\ nth_error outs m
           = nth_error Mock.responses (m mod List.length Mock.responses))
  /\ (forall n i, Mock.calls n (i + List.length Mock.responses) = Mock.calls n i)
  /\ (forall i, exists outs,
        Mock.calls (List.length Mock.responses) i = Ok outs
        /\ Mock.calls (2 * List.length Mock.responses) i = Ok (outs ++ outs))
  /\ (forall st sl v mt env py_str turn i,
        Agent.consult (Agent.mkConfig true st sl v mt) env py_str turn i
        = Agent.Answered
            (nth (i mod List.length Mock.responses) Mock.responses EmptyString)
            (S i)).
Proof.
  split; [exact MockFacts.next_eq|].
  split.
  { intros m. exists (map Mock.canned (seq 0 (S m))).
    split; [apply MockFacts.calls_eq|].
    split; [rewrite length_map, length_seq; reflexivity|].
    rewrite nth_error_map, nth_error_seq.
    destruct (Nat.ltb_spec m (S m)); [|lia]. simpl.
    unfold Mock.canned. symmetry. apply nth_error_nth'.
    apply Nat.mod_upper_bound. discriminate. }
  split; [intros n i; apply MockFacts.calls_period|].
  split.
  { intros i. exists (map Mock.canned (seq i (List.length Mock.responses))).
    split; [apply MockFacts.calls_eq|].
    replace (2 * List.length Mock.responses)
      with (List.length Mock.responses + List.length Mock.responses) by lia.
    rewrite MockFacts.calls_app. do 2 f_equal.
    pose proof (MockFacts.calls_period (List.length Mock.responses) i) as Hp.
    rewrite !MockFacts.calls_eq in Hp. congruence. }
  intros st sl v mt env py_str turn i. unfold Agent.consult. simpl Agent.use_mock.
  cbv iota. rewrite MockFacts.next_eq. reflexivity.
Qed.

(** ** The remote call *)

Module LlmFacts.
Import Llm.

Lemma chat_content_eq (data : json) :
  match content_field data with
  | Some v => chat_content data = Ok v
  | None => raises (chat_content data) = true
  end.
Proof.
  unfold content_field, first_choice, chat_content.
  destruct data as [| | | |items|fields]; try reflexivity. simpl.
  destruct (lookup fields "choices") as [[| | |s|[|[| | | | |choice] rest]|fs]|];
    try reflexivity; simpl.
  - destruct s; reflexivity.
  - destruct (lookup choice "message") as [[| | | | |message]|]; try reflexivity.
    simpl. destruct (lookup message "content"); reflexivity.
Qed.

Lemma legacy_text_eq (data : json) :
  match first_choice data with
  | Some choice =>
      legacy_text data
      = Ok (match lookup choice "text" with Some t => t | None => JNull end)
  | None => raises (legacy_text data) = true
  end.
Proof.
  unfold first_choice, legacy_text.
  destruct data as [| | | |items|fields]; try reflexivity. simpl.
  destruct (lookup fields "choices") as [[| | |s|[|[| | | | |choice] rest]|fs]|];
    try reflexivity; simpl.
  - destruct s; reflexivity.
  - destruct (lookup choice "text"); reflexivity.
Qed.

End LlmFacts.

(** C9 as worded fails: a decodable body whose first choice has neither
    [message.content] nor [text] makes [call_llm] return [None] without
    raising, and so does a [content] that is [null]. *)
Lemma call_llm_defaults_missing_text :
  ~ Spec.decide_as_worded
      (Llm.Response 200
         (Some (Llm.JObj [("choices", Llm.JArr [Llm.JObj []])])))
  /\ Llm.call_llm
       (Llm.Response 200
          (Some (Llm.JObj [("choices", Llm.JArr [Llm.JObj []])])))
     = Ok Llm.JNull
  /\ ~ Spec.decide_as_worded
         (Llm.Response 200
            (Some (Llm.JObj
               [("choices",
                 Llm.JArr [Llm.JObj
                   [("message", Llm.JObj [("content", Llm.JNull)])]])]))).
Proof.
  repeat split; try (intros H; vm_compute in H; discriminate H).
Qed.

(** C9, amended: [call_llm] raises when there is no response, when the
    status is in 400..599, and when the body does not decode.  Otherwise it
    returns the value under [choices[0].message.content] when the body has
    that path, whatever that value is; failing that, when the first choice
    is an object, the value under its [text] key, and [None] when it has no
    such key; and it raises in every other case.  A chat-style and a
    legacy-style body give their text. *)
Theorem call_llm_outcomes (reply : Llm.http_reply) :
  match reply with
  | Llm.NoResponse => Llm.call_llm reply = Raise RequestException
  | Llm.Response status body =>
      if (400 <=? status) && (status <? 600)
      then Llm.call_llm reply = Raise HTTPError
      else
        match body with
        | None => Llm.call_llm reply = Raise JSONDecodeError
        | Some data =>
            match Llm.content_field data, Llm.first_choice data with
            | Some v, _ => Llm.call_llm reply = Ok v
            | None, Some choice =>
                Llm.call_llm reply
                = Ok (match Llm.lookup choice "text" with
                      | Some t => t
                      | None => Llm.JNull
                      end)
            | None, None => raises (Llm.call_llm reply) = true
            end
        end
  end
  /\ Llm.call_llm
       (Llm.Response 200
          (Some (Llm.JObj
             [("choices",
               Llm.JArr [Llm.JObj
                 [("message", Llm.JObj [("content", Llm.JStr "look")])]])])))
     = Ok (Llm.JStr "look")
  /\ Llm.call_llm
       (Llm.Response 200
          (Some (Llm.JObj
             [("choices", Llm.JArr [Llm.JObj [("text", Llm.JStr "north")]])])))
     = Ok (Llm.JStr "north").
Proof.
  split; [|split; reflexivity].
  destruct reply as [|status body]; [reflexivity|].
  cbv [Llm.call_llm Llm.post Llm.raise_for_status Llm.resp_json bind].
  destruct ((400 <=? status) && (status <? 600)); [reflexivity|].
  destruct body as [data|]; [|reflexivity].
  generalize (LlmFacts.chat_content_eq data), (LlmFacts.legacy_text_eq data).
  destruct (Llm.content_field data) as [v|].
  - intros Hc _. rewrite Hc. reflexivity.
  - destruct (Llm.chat_content data) as [x|e]; [discriminate|].
    intros _. destruct (Llm.first_choice data) as [choice|]; intros Hl; exact Hl.
Qed.

(** ** The turn loop *)

Module AgentFacts.
Import Agent.

Section LoopFacts.

Variable lib : pexpect_lib.
Variable cfg : config.
Variable env : nat -> turn_env.
Variable py_str : Llm.json -> string.

Local Abbreviation iterate := (iterate lib cfg env py_str).
Local Abbreviation turn_body := (turn_body lib cfg env py_str).
Local Abbreviation main := (main lib cfg env py_str).

Ltac own_events :=
  repeat first
    [ apply Forall_nil
    | apply Forall_cons; [exact I || reflexivity|]
    | apply Forall_app; split ].

Lemma received_of_turn t cmd response loc sc tu st :
  Forall (of_turn t) (fst (received cfg t cmd response loc sc tu st)).
Proof.
  unfold received.
  destruct (read_output (before st) (after st)); simpl; [|own_events].
  destruct (simple_text cfg); simpl; [own_events|].
  destruct (parse_game_state _); simpl; [|own_events].
  destruct (simple_log cfg), (verbose cfg); simpl; own_events.
Qed.

Lemma await_of_turn t cmd response loc sc tu hist i :
  Forall (of_turn t) (fst (await lib cfg env t cmd response loc sc tu hist i)).
Proof.
  unfold await. destruct (expected (env t));
    try apply received_of_turn. simpl. own_events.
Qed.

Lemma act_of_turn t cmd response loc sc tu hist i :
  Forall (of_turn t) (fst (act lib cfg env t cmd response loc sc tu hist i)).
Proof.
  unfold act. destruct (parse_game_state _); simpl; [|own_events].
  destruct (sendline_ok (env t)).
  - pose proof (await_of_turn t cmd response loc sc tu hist i) as H.
    destruct (await _ _ _ _ _ _ _ _ _ _ _) as [evs f]. simpl in *.
    destruct (simple_text cfg); simpl; own_events; exact H.
  - destruct (simple_text cfg); simpl; own_events.
Qed.

Lemma decide_of_turn t loc sc tu hist i :
  Forall (of_turn t) (fst (decide lib cfg env py_str t loc sc tu hist i)).
Proof.
  unfold decide. destruct (consult _ _ _ _ _) as [response i'| |e];
    simpl; try own_events.
  destruct (truthy response); simpl; [|own_events].
  destruct (first_command response) as [cmd|]; simpl; [|own_events].
  pose proof (act_of_turn t cmd response loc sc tu hist i') as H.
  destruct (act _ _ _ _ _ _ _ _ _ _ _) as [evs f]. simpl in *.
  own_events. exact H.
Qed.

Lemma turn_body_of_turn t st :
  Forall (of_turn t) (fst (turn_body t st)).
Proof.
  unfold Agent.turn_body, observe.
  destruct (read_output (before st) (after st)) as [recent|e]; simpl; [|own_events].
  destruct (truthy (strip recent)); simpl;
    (destruct (parse_banner _) as [[[loc sc] tu]|e]; simpl; [|own_events]);
    match goal with
    | |- context [decide ?a ?b ?c ?d ?e ?f ?g ?h ?i ?j] =>
        pose proof (decide_of_turn e f g h i j) as H;
        destruct (decide a b c d e f g h i j) as [evs fl]
    end; simpl in *; own_events; exact H.
Qed.

Lemma of_turn_before t t' ev : of_turn t ev -> t < t' -> from_turn t' ev = false.
Proof.
  unfold of_turn, from_turn. destruct (event_turn ev) as [x|]; [|reflexivity].
  intros -> H. apply Nat.leb_gt. exact H.
Qed.

(** The events of [n] iterations starting at [t] are of turns below [t + n]. *)
Lemma iterate_before n :
  forall t st t', t + n <= t' ->
    filter (from_turn t') (fst (iterate n t st)) = [].
Proof.
  induction n as [|n IH]; intros t st t' Ht; simpl; [reflexivity|].
  pose proof (turn_body_of_turn t st) as Hb.
  destruct (turn_body t st) as [evs [st'| why | e]]; simpl in *.
  - specialize (IH (S t) st' t' ltac:(lia)).
    destruct (Agent.iterate _ _ _ _ n (S t) st') as [evs' e']. simpl in *.
    rewrite filter_app, IH, app_nil_r.
    clear IH. induction Hb as [|ev evs Hev _ IHf]; simpl; [reflexivity|].
    rewrite (of_turn_before t t' ev Hev) by lia. exact IHf.
  - induction Hb as [|ev evs Hev _ IHf]; simpl; [reflexivity|].
    rewrite (of_turn_before t t' ev Hev) by lia. exact IHf.
  - induction Hb as [|ev evs Hev _ IHf]; simpl; [reflexivity|].
    rewrite (of_turn_before t t' ev Hev) by lia. exact IHf.
Qed.

(** Iterations that all went through can be followed by more. *)
Lemma iterate_add n :
  forall t st evs st' k,
    iterate n t st = (evs, RangeDone st') ->
    iterate (n + k) t st
    = (evs ++ fst (iterate k (t + n) st'), snd (iterate k (t + n) st')).
Proof.
  induction n as [|n IH]; intros t st evs st' k H; simpl in *.
  - inversion H; subst. rewrite Nat.add_0_r. simpl.
    destruct (Agent.iterate _ _ _ _ k t st'); reflexivity.
  - destruct (turn_body t st) as [evs1 [st1| why | e]]; try discriminate.
    destruct (Agent.iterate _ _ _ _ n (S t) st1) as [evs2 e2] eqn:H2.
    inversion H; subst.
    rewrite (IH (S t) st1 evs2 st' k H2).
    replace (S t + n) with (t + S n) by lia.
    rewrite app_assoc. reflexivity.
Qed.

(** The iterations before the last one went through as well. *)
Lemma iterate_last n :
  forall t st evs st',
    iterate (S n) t st = (evs, RangeDone st') ->
    exists evs1 st1 evs2,
      iterate n t st = (evs1, RangeDone st1)
      /\ turn_body (t + n) st1 = (evs2, Continue st')
      /\ evs = evs1 ++ evs2.
Proof.
  induction n as [|n IH]; intros t st evs st' H.
  - simpl in H. destruct (turn_body t st) as [evs1 [st1| why | e]] eqn:Hb;
      try discriminate.
    inversion H; subst. exists [], st, evs1.
    rewrite Nat.add_0_r, app_nil_r. auto.
  - remember (S n) as m. simpl in H.
    destruct (turn_body t st) as [evs1 [st1| why | e]] eqn:Hb; try discriminate.
    destruct (Agent.iterate _ _ _ _ m (S t) st1) as [evs2 e2] eqn:H2.
    inversion H; subst.
    destruct (IH (S t) st1 evs2 st' H2) as (a & sa & b & Ha & Hb' & ->).
    exists (evs1 ++ a), sa, b. simpl. rewrite Hb, Ha.
    replace (t + S n) with (S t + n) by lia.
    rewrite app_assoc. auto.
Qed.

Lemma observe_seen st seen hist t :
  observe st = Ok (seen, hist) -> filter (from_turn t) seen = [].
Proof.
  unfold observe. destruct (read_output _ _) as [recent|]; simpl; [|discriminate].
  destruct (truthy (strip recent)); intros H; inversion H; reflexivity.
Qed.

(** An iteration in which the oracle fails or gives no command. *)
Lemma turn_body_decision_failure t st seen hist banner :
  observe st = Ok (seen, hist) ->
  parse_banner (join nl (History.banner_window hist)) = Ok banner ->
  (consult cfg env py_str t (cursor st) = CallFailed
   \/ exists response i',
        consult cfg env py_str t (cursor st) = Answered response i'
        /\ first_command response = None) ->
  exists msg why,
    turn_body t st = (seen ++ [Ask t; Print msg], Break why)
    /\ decision_source_failure why = true.
Proof.
  intros Ho Hp Hc. unfold Agent.turn_body. rewrite Ho, Hp.
  destruct banner as [[loc sc] tu].
  unfold decide. destruct Hc as [Hc|(response & i' & Hc & Hf)]; rewrite Hc.
  - eauto.
  - rewrite Hf. destruct (truthy response); simpl; eauto.
Qed.

Lemma or_empty_str_str (s : string) : or_empty_str (AStr s) = AStr s.
Proof. destruct s; reflexivity. Qed.

(** An iteration either stops before the command is sent, or sends it and
    ends the way the wait ends.  No post-receive record precedes the
    sending. *)
Lemma act_shape t cmd response loc sc tu hist i :
  (exists pre,
      act lib cfg env t cmd response loc sc tu hist i
      = (pre ++ Sendline t cmd
             :: fst (await lib cfg env t cmd response loc sc tu hist i),
         snd (await lib cfg env t cmd response loc sc tu hist i))
      /\ Forall (fun ev => is_post_record ev = false) pre)
  \/ (exists evs f,
        act lib cfg env t cmd response loc sc tu hist i = (evs, f)
        /\ (forall st', f <> Continue st')
        /\ Forall (fun ev => is_sendline ev = false) evs).
Proof.
  unfold act. rewrite parse_game_state_eq.
  destruct (sendline_ok (env t)).
  - left. destruct (await _ _ _ _ _ _ _ _ _ _ _) as [evs f].
    eexists. rewrite app_assoc. split; [reflexivity|].
    destruct (simple_text cfg); repeat constructor.
  - right. do 2 eexists. split; [reflexivity|].
    split; [discriminate|].
    destruct (simple_text cfg); repeat constructor.
Qed.

Lemma decide_shape t loc sc tu hist i :
  (exists pre cmd response i',
      decide lib cfg env py_str t loc sc tu hist i
      = (pre ++ Sendline t cmd
             :: fst (await lib cfg env t cmd response loc sc tu hist i'),
         snd (await lib cfg env t cmd response loc sc tu hist i'))
      /\ Forall (fun ev => is_post_record ev = false) pre)
  \/ (exists evs f,
        decide lib cfg env py_str t loc sc tu hist i = (evs, f)
        /\ (forall st', f <> Continue st')
        /\ Forall (fun ev => is_sendline ev = false) evs).
Proof.
  unfold decide.
  destruct (consult _ _ _ _ _) as [response i'| |e];
    try (right; do 2 eexists; split; [reflexivity|];
         split; [discriminate | repeat constructor]).
  destruct (negb (truthy response));
    try (right; do 2 eexists; split; [reflexivity|];
         split; [discriminate | repeat constructor]).
  destruct (first_command response) as [cmd|];
    try (right; do 2 eexists; split; [reflexivity|];
         split; [discriminate | repeat constructor]).
  destruct (act_shape t cmd response loc sc tu hist i')
    as [(pre & -> & Hpre)|(evs & f & -> & Hf & Hevs)].
  - left. exists (Ask t :: pre), cmd, response, i'.
    split; [reflexivity | constructor; [reflexivity | exact Hpre]].
  - right. do 2 eexists. split; [reflexivity|].
    split; [exact Hf | constructor; [reflexivity | exact Hevs]].
Qed.

Lemma turn_body_shape t st :
  (exists pre cmd response loc sc tu hist i,
      turn_body t st
      = (pre ++ Sendline t cmd
             :: fst (await lib cfg env t cmd response loc sc tu hist i),
         snd (await lib cfg env t cmd response loc sc tu hist i))
      /\ Forall (fun ev => is_post_record ev = false) pre)
  \/ (exists evs f,
        turn_body t st = (evs, f)
        /\ (forall st', f <> Continue st')
        /\ Forall (fun ev => is_sendline ev = false) evs).
Proof.
  unfold Agent.turn_body.
  destruct (observe st) as [[evs0 hist]|e] eqn:Ho;
    [|right; do 2 eexists; split; [reflexivity|];
      split; [discriminate | constructor]].
  assert (Hseen : Forall (fun ev => is_post_record ev = false) evs0
                  /\ Forall (fun ev => is_sendline ev = false) evs0).
  { unfold observe in Ho.
    destruct (read_output (before st) (after st)) as [recent|]; [|discriminate].
    simpl in Ho. destruct (truthy (strip recent)); inversion Ho; subst;
      split; repeat constructor. }
  destruct Hseen as [Hp Hs].
  destruct (parse_banner _) as [[[loc0 sc0] tu0]|e];
    [|right; do 2 eexists; split; [reflexivity|];
      split; [discriminate | exact Hs]].
  match goal with
  | |- context [decide ?a ?b ?c ?d ?e ?f ?g ?h ?i ?j] =>
      destruct (decide_shape e f g h i j)
        as [(pre & cmd & response & i' & -> & Hpre)|(evs & fl & -> & Hf & Hevs)]
  end.
  - left. exists (evs0 ++ pre). do 7 eexists.
    rewrite <- app_assoc. split; [reflexivity|].
    apply Forall_app. split; assumption.
  - right. do 2 eexists. split; [reflexivity|].
    split; [exact Hf | apply Forall_app; split; assumption].
Qed.

(** An iteration that goes on after a wait that timed out: the time-out
    was printed last, and the attributes of [game] are as the library set
    them. *)
Lemma turn_body_timed_out t st evs st' b :
  turn_body t st = (evs, Continue st') ->
  expected (env t) = TimedOut b ->
  before st' = AStr b
  /\ after st' = after_timeout lib
  /\ exists pre,
       evs = pre ++ [Print "Timeout waiting for game response after command"].
Proof.
  intros H He.
  destruct (turn_body_shape t st)
    as [(pre & cmd & response & loc & sc & tu & hist & i & Hb & _)
       |(evs' & f & Hb & Hf & _)];
    rewrite Hb in H.
  - unfold await in H. rewrite He in H. simpl in H.
    inversion H; subst. simpl. repeat split.
    exists (pre ++ [Sendline t cmd]). rewrite <- app_assoc. reflexivity.
  - inversion H; subst. destruct (Hf st' eq_refl).
Qed.

(** An iteration whose wait ends with the end of the game's output, the
    command having been sent. *)
Lemma turn_body_eof t st evs f b cmd :
  turn_body t st = (evs, f) ->
  expected (env t) = EndOfFile b ->
  In (Sendline t cmd) evs ->
  match after_eof lib with
  | AClassEOF | AClassTIMEOUT =>
      f = Uncaught TypeError
      /\ Forall (fun ev => is_post_record ev = false) evs
  | ANone | AStr _ =>
      exists st',
        f = Continue st' /\ before st' = AStr b /\ after st' = after_eof lib
  end.
Proof.
  intros H He Hin.
  destruct (turn_body_shape t st)
    as [(pre & cmd' & response & loc & sc & tu & hist & i & Hb & Hpre)
       |(evs' & f' & Hb & _ & Hevs)];
    rewrite Hb in H; inversion H; subst; clear H.
  - unfold await. rewrite He. unfold received, read_output.
    cbn [before after]. rewrite or_empty_str_str.
    destruct (after_eof lib) as [|s| |];
      try rewrite or_empty_str_str; cbn [or_empty_str add].
    + rewrite parse_game_state_eq.
      destruct (simple_text cfg); simpl; eauto.
    + rewrite parse_game_state_eq.
      destruct (simple_text cfg); simpl; eauto.
    + split; [reflexivity|]. apply Forall_app. split; [exact Hpre|].
      repeat constructor.
    + split; [reflexivity|]. apply Forall_app. split; [exact Hpre|].
      repeat constructor.
  - rewrite Forall_forall in Hevs. specialize (Hevs _ Hin). discriminate.
Qed.

(** Every iteration that reads its output and its banner consults the
    oracle. *)
Lemma turn_body_asks t st seen hist banner :
  observe st = Ok (seen, hist) ->
  parse_banner (join nl (History.banner_window hist)) = Ok banner ->
  In (Ask t) (fst (turn_body t st)).
Proof.
  intros Ho Hp. unfold Agent.turn_body. rewrite Ho, Hp.
  destruct banner as [[loc sc] tu].
  unfold decide.
  destruct (consult _ _ _ _ _) as [response i'| |e]; simpl;
    try (apply in_or_app; right; left; reflexivity).
  destruct (truthy response); simpl;
    try (apply in_or_app; right; left; reflexivity).
  destruct (first_command response); simpl;
    try (apply in_or_app; right; left; reflexivity).
  destruct (act _ _ _ _ _ _ _ _ _ _ _). simpl.
  apply in_or_app; right; left; reflexivity.
Qed.

Lemma iterate_first m t st :
  exists rest, fst (iterate (S m) t st) = fst (turn_body t st) ++ rest.
Proof.
  simpl. destruct (turn_body t st) as [evs [st'|why|e]]; simpl.
  - destruct (Agent.iterate _ _ _ _ m (S t) st') as [evs' e']. simpl. eauto.
  - exists []. rewrite app_nil_r. reflexivity.
  - exists []. rewrite app_nil_r. reflexivity.
Qed.

Lemma main_events st0 :
  exists rest, fst (main st0) = fst (iterate (max_turns cfg) 1 st0) ++ rest.
Proof.
  unfold Agent.main.
  destruct (iterate (max_turns cfg) 1 st0) as [evs [st|why|e]]; simpl; eauto.
  exists []. rewrite app_nil_r. reflexivity.
Qed.

(** One more iteration after [n] that went through. *)
Lemma iterate_next n t st evs st' evs1 st1 :
  iterate n t st = (evs, RangeDone st') ->
  turn_body (t + n) st' = (evs1, Continue st1) ->
  iterate (S n) t st = (evs ++ evs1, RangeDone st1).
Proof.
  intros Hi Hb. replace (S n) with (n + 1) by lia.
  rewrite (iterate_add n t st evs st' 1 Hi). simpl. rewrite Hb. simpl.
  rewrite app_nil_r. reflexivity.
Qed.

(** When the iterations before turn [t] went through and turn [t] is in
    the range, the events of turn [t] are events of the run. *)
Lemma main_includes_turn n st0 evs st ev :
  iterate n 1 st0 = (evs, RangeDone st) ->
  n < max_turns cfg ->
  In ev (fst (turn_body (S n) st)) ->
  In ev (fst (main st0)).
Proof.
  intros Hi Hn Hin. destruct (main_events st0) as [rest ->].
  apply in_or_app. left.
  replace (max_turns cfg) with (n + S (max_turns cfg - S n)) by lia.
  rewrite (iterate_add n 1 st0 evs st _ Hi). cbn [fst].
  apply in_or_app. right. change (1 + n) with (S n).
  destruct (iterate_first (max_turns cfg - S n) (S n) st) as [rest' ->].
  apply in_or_app. left. exact Hin.
Qed.

(** A run whose turn [n + 1] dies. *)
Lemma main_dies n st0 evs st evs1 e :
  iterate n 1 st0 = (evs, RangeDone st) ->
  n < max_turns cfg ->
  turn_body (S n) st = (evs1, Uncaught e) ->
  main st0 = (evs ++ evs1, Aborted e).
Proof.
  intros Hi Hn Hb. unfold Agent.main.
  replace (max_turns cfg) with (n + S (max_turns cfg - S n)) by lia.
  rewrite (iterate_add n 1 st0 evs st _ Hi). simpl. rewrite Hb. reflexivity.
Qed.

Lemma observe_reads_str st b :
  before st = AStr b ->
  after st = ANone \/ (exists s, after st = AStr s) ->
  exists seen hist, observe st = Ok (seen, hist).
Proof.
  intros Hb Ha. unfold observe, read_output. rewrite Hb, or_empty_str_str.
  destruct Ha as [->|[s ->]]; try rewrite or_empty_str_str; simpl;
    match goal with
    | |- context [truthy ?x] => destruct (truthy x)
    end; eauto.
Qed.

End LoopFacts.
End AgentFacts.

(** C7, what the code does: with pexpect 4, when the wait of turn [n + 1]
    times out and a further turn is due, the time-out is printed and the
    text read so far is kept in [game.before], but [game.after] holds the
    class [pexpect.TIMEOUT]; the next iteration adds it to a [str], the
    [TypeError] leaves [main], and the run ends there without any event of
    the next turn. *)
Theorem timeout_aborts_next_turn
    (cfg : Agent.config) (env : nat -> Agent.turn_env)
    (py_str : Llm.json -> string) (st0 st : Agent.loop_state) (n : nat)
    (evs : list Agent.event) (b : string) :
  Agent.iterate Agent.pexpect4 cfg env py_str (S n) 1 st0
  = (evs, Agent.RangeDone st) ->
  Agent.expected (env (S n)) = Agent.TimedOut b ->
  S n < Agent.max_turns cfg ->
  (exists pre,
      evs = pre ++ [Agent.Print "Timeout waiting for game response after command"])
  /\ Agent.before st = Agent.AStr b
  /\ Agent.after st = Agent.AClassTIMEOUT
  /\ Agent.observe st = Raise TypeError
  /\ Agent.main Agent.pexpect4 cfg env py_str st0 = (evs, Agent.Aborted TypeError).
Proof.
  intros Hi He Hn.
  destruct (AgentFacts.iterate_last _ _ _ _ _ _ _ _ _ Hi)
    as (evs1 & st1 & evs2 & Hi1 & Hb & ->).
  destruct (AgentFacts.turn_body_timed_out _ _ _ _ _ _ _ _ _ Hb He)
    as (Hbefore & Hafter & pre & ->).
  assert (Ho : Agent.observe st = Raise TypeError).
  { unfold Agent.observe, Agent.read_output.
    rewrite Hbefore, Hafter, AgentFacts.or_empty_str_str. reflexivity. }
  split; [exists (evs1 ++ pre); rewrite app_assoc; reflexivity|].
  split; [exact Hbefore|]. split; [exact Hafter|]. split; [exact Ho|].
  rewrite <- (app_nil_r (evs1 ++ _)) at 1.
  apply (AgentFacts.main_dies _ _ _ _ (S n) st0 _ st [] TypeError Hi Hn).
  unfold Agent.turn_body. rewrite Ho. reflexivity.
Qed.

(** The sample run of C7: mock oracle, three turns, the wait of turn 2
    times out. *)
Lemma timeout_on_turn_2_aborts :
  (exists pre,
      fst (Agent.iterate Agent.pexpect4 (Scenario.mock 3) Scenario.timeout_on_2
             Scenario.py_str 2 1 Scenario.start)
      = pre ++ [Agent.Print "Timeout waiting for game response after command"])
  /\ Agent.before
       (Scenario.state_of
          (Agent.iterate Agent.pexpect4 (Scenario.mock 3) Scenario.timeout_on_2
             Scenario.py_str 2 1 Scenario.start))
     = Agent.AStr "You are in a forest"
  /\ Agent.after
       (Scenario.state_of
          (Agent.iterate Agent.pexpect4 (Scenario.mock 3) Scenario.timeout_on_2
             Scenario.py_str 2 1 Scenario.start))
     = Agent.AClassTIMEOUT
  /\ Agent.observe
       (Scenario.state_of
          (Agent.iterate Agent.pexpect4 (Scenario.mock 3) Scenario.timeout_on_2
             Scenario.py_str 2 1 Scenario.start))
     = Raise TypeError
  /\ Agent.main Agent.pexpect4 (Scenario.mock 3) Scenario.timeout_on_2
       Scenario.py_str Scenario.start
     = (fst (Agent.iterate Agent.pexpect4 (Scenario.mock 3) Scenario.timeout_on_2
               Scenario.py_str 2 1 Scenario.start),
        Agent.Aborted TypeError).
Proof.
  apply (timeout_aborts_next_turn (Scenario.mock 3) Scenario.timeout_on_2
           Scenario.py_str Scenario.start _ 1 _ "You are in a forest").
  - vm_compute. reflexivity.
  - reflexivity.
  - simpl. lia.
Defined.

(** C8, what the code does: when the wait of turn [n + 1] ends with the
    end of the game's output, the loop has no [break] for it.  With a
    library that stores an exception class in [game.after] (pexpect 4) the
    sum [before + after] raises [TypeError]: the run is aborted and the
    turn has no post-receive record.  With a library that stores [None] or
    a [str] the iteration goes on to its end and the loop to the next
    turn, which reads its output and, the banner of its window read,
    consults the oracle again (a banner [int] refuses aborts the run
    there). *)
Theorem eof_does_not_end_run
    (lib : Agent.pexpect_lib) (cfg : Agent.config)
    (env : nat -> Agent.turn_env) (py_str : Llm.json -> string)
    (st0 st : Agent.loop_state) (n : nat)
    (evs0 evs : list Agent.event) (f : Agent.flow) (b cmd : string) :
  Agent.iterate lib cfg env py_str n 1 st0 = (evs0, Agent.RangeDone st) ->
  n < Agent.max_turns cfg ->
  Agent.turn_body lib cfg env py_str (S n) st = (evs, f) ->
  Agent.expected (env (S n)) = Agent.EndOfFile b ->
  In (Agent.Sendline (S n) cmd) evs ->
  match Agent.after_eof lib with
  | Agent.AClassEOF | Agent.AClassTIMEOUT =>
      Agent.main lib cfg env py_str st0 = (evs0 ++ evs, Agent.Aborted TypeError)
      /\ Forall (fun ev => Agent.is_post_record ev = false) evs
  | Agent.ANone | Agent.AStr _ =>
      exists st',
        Agent.iterate lib cfg env py_str (S n) 1 st0
        = (evs0 ++ evs, Agent.RangeDone st')
        /\ (S n < Agent.max_turns cfg ->
            exists seen hist,
              Agent.observe st' = Ok (seen, hist)
              /\ match parse_banner (join nl (History.banner_window hist)) with
                 | Ok _ =>
                     In (Agent.Ask (S (S n)))
                        (fst (Agent.main lib cfg env py_str st0))
                 | Raise e =>
                     Agent.main lib cfg env py_str st0
                     = (evs0 ++ evs ++ seen, Agent.Aborted e)
                 end)
  end.
Proof.
  intros Hi Hn Hb He Hin.
  pose proof (AgentFacts.turn_body_eof _ _ _ _ _ _ _ _ _ _ Hb He Hin) as H.
  assert (Hgo : forall st',
             f = Agent.Continue st' -> Agent.before st' = Agent.AStr b ->
             (Agent.after st' = Agent.ANone \/ exists s, Agent.after st' = Agent.AStr s) ->
             exists st'',
               Agent.iterate lib cfg env py_str (S n) 1 st0
               = (evs0 ++ evs, Agent.RangeDone st'')
               /\ (S n < Agent.max_turns cfg ->
                   exists seen hist,
                     Agent.observe st'' = Ok (seen, hist)
                     /\ match parse_banner (join nl (History.banner_window hist)) with
                        | Ok _ =>
                            In (Agent.Ask (S (S n)))
                               (fst (Agent.main lib cfg env py_str st0))
                        | Raise e =>
                            Agent.main lib cfg env py_str st0
                            = (evs0 ++ evs ++ seen, Agent.Aborted e)
                        end)).
  { intros st' -> Hbefore Hafter.
    pose proof (AgentFacts.iterate_next _ _ _ _ n 1 st0 evs0 st evs st' Hi Hb) as Hi'.
    exists st'. split; [exact Hi'|]. intros Hn'.
    destruct (AgentFacts.observe_reads_str st' b Hbefore Hafter) as (seen & hist & Ho).
    exists seen, hist. split; [exact Ho|].
    destruct (parse_banner (join nl (History.banner_window hist)))
      as [banner|e] eqn:Hp.
    - eapply AgentFacts.main_includes_turn; eauto.
      eapply AgentFacts.turn_body_asks; eauto.
    - rewrite app_assoc.
      apply (AgentFacts.main_dies lib cfg env py_str (S n) st0 _ st' seen e Hi' Hn').
      unfold Agent.turn_body. rewrite Ho, Hp. reflexivity. }
  destruct (Agent.after_eof lib) as [|s| |].
  - destruct H as (st' & Hf & Hbefore & Hafter). apply (Hgo st'); auto.
  - destruct H as (st' & Hf & Hbefore & Hafter). apply (Hgo st'); eauto.
  - destruct H as [-> Hpost]. split; [|exact Hpost].
    eapply AgentFacts.main_dies; eauto.
  - destruct H as [-> Hpost]. split; [|exact Hpost].
    eapply AgentFacts.main_dies; eauto.
Qed.

(** The sample run of C8: mock oracle, three turns, the game closes its
    output during the wait of turn 2. *)
Lemma eof_on_turn_2_aborts :
  Agent.main Agent.pexpect4 (Scenario.mock 3) Scenario.eof_on_2
    Scenario.py_str Scenario.start
  = (fst (Agent.iterate Agent.pexpect4 (Scenario.mock 3) Scenario.eof_on_2
            Scenario.py_str 1 1 Scenario.start)
       ++ fst (Agent.turn_body Agent.pexpect4 (Scenario.mock 3) Scenario.eof_on_2
                 Scenario.py_str 2
                 (Scenario.state_of
                    (Agent.iterate Agent.pexpect4 (Scenario.mock 3)
                       Scenario.eof_on_2 Scenario.py_str 1 1 Scenario.start))),
     Agent.Aborted TypeError)
  /\ Forall (fun ev => Agent.is_post_record ev = false)
       (fst (Agent.turn_body Agent.pexpect4 (Scenario.mock 3) Scenario.eof_on_2
               Scenario.py_str 2
               (Scenario.state_of
                  (Agent.iterate Agent.pexpect4 (Scenario.mock 3)
                     Scenario.eof_on_2 Scenario.py_str 1 1 Scenario.start)))).
Proof.
  apply (eof_does_not_end_run Agent.pexpect4 (Scenario.mock 3) Scenario.eof_on_2
           Scenario.py_str Scenario.start
           (Scenario.state_of
              (Agent.iterate Agent.pexpect4 (Scenario.mock 3)
                 Scenario.eof_on_2 Scenario.py_str 1 1 Scenario.start))
           1 _ _
           (snd (Agent.turn_body Agent.pexpect4 (Scenario.mock 3) Scenario.eof_on_2
                   Scenario.py_str 2
                   (Scenario.state_of
                      (Agent.iterate Agent.pexpect4 (Scenario.mock 3)
                         Scenario.eof_on_2 Scenario.py_str 1 1 Scenario.start))))
           "Goodbye" "north").
  - vm_compute. reflexivity.
  - simpl. lia.
  - vm_compute. reflexivity.
  - reflexivity.
  - vm_compute. repeat (first [left; reflexivity | right]).
Defined.

(** The sample runs, read off. *)

Example run_timeout_on_2_pexpect4 :
  snd (Agent.main Agent.pexpect4 (Scenario.mock 3) Scenario.timeout_on_2
         Scenario.py_str Scenario.start)
  = Agent.Aborted TypeError
  /\ filter (Agent.from_turn 3)
       (fst (Agent.main Agent.pexpect4 (Scenario.mock 3) Scenario.timeout_on_2
               Scenario.py_str Scenario.start))
     = [].
Proof. split; vm_compute; reflexivity. Qed.

(** Had the library left [None] in [game.after], as the docstring of
    [expect] says, the run would go on with the text read before the
    time-out. *)
Example run_timeout_on_2_after_none :
  snd (Agent.main Agent.pexpect_doc (Scenario.mock 3) Scenario.timeout_on_2
         Scenario.py_str Scenario.start)
  = Agent.Finished None
  /\ In (Agent.Transcript "You are in a forest")
       (fst (Agent.main Agent.pexpect_doc (Scenario.mock 3) Scenario.timeout_on_2
               Scenario.py_str Scenario.start))
  /\ In (Agent.Sendline 3 "take lamp")
       (fst (Agent.main Agent.pexpect_doc (Scenario.mock 3) Scenario.timeout_on_2
               Scenario.py_str Scenario.start)).
Proof.
  split; [vm_compute; reflexivity|].
  split; vm_compute; repeat (first [left; reflexivity | right]).
Qed.

Example run_eof_on_2_pexpect4 :
  snd (Agent.main Agent.pexpect4 (Scenario.mock 3) Scenario.eof_on_2
         Scenario.py_str Scenario.start)
  = Agent.Aborted TypeError
  /\ filter (fun ev => Agent.is_post_record ev && Agent.from_turn 2 ev)
       (fst (Agent.main Agent.pexpect4 (Scenario.mock 3) Scenario.eof_on_2
               Scenario.py_str Scenario.start))
     = []
  /\ ~ In (Agent.Print "Agent finished")
         (fst (Agent.main Agent.pexpect4 (Scenario.mock 3) Scenario.eof_on_2
                 Scenario.py_str Scenario.start)).
Proof.
  split; [vm_compute; reflexivity|].
  split; [vm_compute; reflexivity|].
  vm_compute. intros H.
  repeat (destruct H as [H|H]; [discriminate H|]). exact H.
Qed.

Example run_eof_on_2_after_none :
  snd (Agent.main Agent.pexpect_doc (Scenario.mock 3) Scenario.eof_on_2
         Scenario.py_str Scenario.start)
  = Agent.Finished None
  /\ In (Agent.Sendline 3 "take lamp")
       (fst (Agent.main Agent.pexpect_doc (Scenario.mock 3) Scenario.eof_on_2
               Scenario.py_str Scenario.start)).
Proof.
  split; [vm_compute; reflexivity|].
  vm_compute; repeat (first [left; reflexivity | right]).
Qed.

(** ** Further properties of [parse_banner] *)

Lemma digits_value_nonneg (s : string) :
  forall acc v, (0 <= acc)%Z -> digits_value acc s = Ok v -> (0 <= v)%Z.
Proof.
  induction s as [|c s IH]; intros acc v Hacc H; cbn [digits_value] in H.
  - inversion H; subst. exact Hacc.
  - destruct (isdigit c); [|discriminate].
    eapply IH; [|exact H]. lia.
Qed.

Lemma py_int_nonneg (s : string) (v : Z) : py_int s = Ok v -> (0 <= v)%Z.
Proof.
  destruct s as [|c s]; [discriminate|].
  unfold py_int. destruct (int_max_str_digits <? _); [discriminate|].
  apply digits_value_nonneg. lia.
Qed.

Lemma score_turns_of_nonneg (s : string) (a b : Z) :
  score_turns_of s = Some (a, b) -> (0 <= a)%Z /\ (0 <= b)%Z.
Proof.
  unfold score_turns_of.
  destruct (Re.search_score_turns s) as [[g1 g2]|]; [|discriminate].
  destruct (py_int g1) as [x|] eqn:H1; [|discriminate].
  destruct (py_int g2) as [y|] eqn:H2; [|discriminate].
  intros H. inversion H; subst.
  split; eapply py_int_nonneg; eauto.
Qed.

(** X1: the score and the turn count [parse_banner] returns are never
    negative: the pattern captures digits only, so a status line with a
    negative score is not recognised and leaves both fields unset.  (It
    returns nothing only on a numeral longer than [int] takes.) *)
Theorem parse_banner_numbers_nonnegative (text : string) :
  match parse_banner text with
  | Ok (_, score, turns) =>
      match score with Some a => (0 <= a)%Z | None => True end
      /\ match turns with Some b => (0 <= b)%Z | None => True end
  | Raise e => e = ValueError /\ existsb overlong (banner_lines text) = true
  end
  /\ parse_banner "Score: -10 Turns: 5" = Ok ("Score: -10 Turns: 5", None, None).
Proof.
  split; [|vm_compute; reflexivity].
  rewrite parse_banner_cases.
  destruct (existsb overlong (banner_lines text)); [auto|].
  destruct (last_some (map score_turns_of (banner_lines text))) as [[a b]|] eqn:Hl;
    simpl; [|auto].
  apply last_some_in in Hl. apply in_map_iff in Hl.
  destruct Hl as (line & Hm & _). apply score_turns_of_nonneg in Hm. exact Hm.
Qed.

(** *** A text made of chunks joined by line feeds *)

Lemma lines_from_nonempty (c : ascii) (s : string) :
  lines_from false (String c s) <> [].
Proof.
  simpl. destruct (is_linebreak c); [discriminate|].
  destruct (lines_from false s); discriminate.
Qed.

Lemma append_nonempty_l (a b : string) (c : ascii) :
  exists d r, (a ++ String c b)%string = String d r.
Proof. destruct a; simpl; eauto. Qed.

(** The lines of [a], a line feed, [b]: those of [a] with the line feed,
    then those of [b]. *)
Lemma lines_from_app_lf (a b : string) :
  forall f,
    lines_from f (a ++ String LF b)
    = lines_from f (a ++ String LF "") ++ lines_from false b.
Proof.
  induction a as [|c a IH]; intros f.
  - simpl. destruct f; simpl; reflexivity.
  - change (lines_from f (String c a ++ String LF b))
      with (lines_from f (String c (a ++ String LF b))).
    change (lines_from f (String c a ++ String LF ""))
      with (lines_from f (String c (a ++ String LF ""))).
    cbn [lines_from].
    destruct (f && Ascii.eqb c LF); [apply IH|].
    destruct (is_linebreak c); [rewrite IH; reflexivity|].
    rewrite IH.
    destruct (append_nonempty_l a "" LF) as (d & r & E). rewrite E.
    destruct (lines_from false (String d r)) as [|l ls] eqn:Hl.
    + destruct (lines_from_nonempty d r Hl).
    + reflexivity.
Qed.

(** A final line feed adds at most one empty line. *)
Lemma lines_from_final_lf (a : string) :
  forall f,
    lines_from f (a ++ String LF "") = lines_from f a
    \/ lines_from f (a ++ String LF "") = lines_from f a ++ [EmptyString].
Proof.
  induction a as [|c a IH]; intros f.
  - destruct f; [left|right]; reflexivity.
  - change (lines_from f (String c a ++ String LF ""))
      with (lines_from f (String c (a ++ String LF ""))).
    cbn [lines_from].
    destruct (f && Ascii.eqb c LF); [apply IH|].
    destruct (is_linebreak c).
    + destruct (IH (Ascii.eqb c CR)) as [E|E]; rewrite E; [left|right]; reflexivity.
    + destruct (IH false) as [E|E]; rewrite E.
      * left. reflexivity.
      * destruct (lines_from false a); [left|right]; reflexivity.
Qed.

Lemma banner_lines_app_lf (a b : string) :
  banner_lines (a ++ nl ++ b) = banner_lines a ++ banner_lines b.
Proof.
  unfold banner_lines, splitlines, nl.
  change (a ++ String LF "" ++ b)%string with (a ++ String LF b)%string.
  rewrite lines_from_app_lf, map_app, filter_app. f_equal.
  destruct (lines_from_final_lf a false) as [E|E]; rewrite E; [reflexivity|].
  rewrite map_app, filter_app. simpl. apply app_nil_r.
Qed.

Lemma banner_lines_join (chunks : list string) :
  banner_lines (join nl chunks) = List.concat (map banner_lines chunks).
Proof.
  induction chunks as [|c cs IH]; [reflexivity|].
  destruct cs as [|c' cs].
  - simpl. rewrite app_nil_r. reflexivity.
  - change (join nl (c :: c' :: cs)) with (c ++ nl ++ join nl (c' :: cs))%string.
    rewrite banner_lines_app_lf, IH. reflexivity.
Qed.

Lemma last_some_app {A : Type} (l1 l2 : list (option A)) :
  last_some (l1 ++ l2)
  = match last_some l2 with
    | Some x => Some x
    | None => last_some l1
    end.
Proof.
  induction l1 as [|x l1 IH]; simpl.
  - destruct (last_some l2); reflexivity.
  - rewrite IH. destruct (last_some l2); reflexivity.
Qed.

(** X2: on chunks joined by line feeds, as the loop passes its history
    window, [parse_banner] sees the non-blank lines of the chunks in order:
    unless one of them holds a numeral longer than [int] takes, the
    location is the first non-blank line of the oldest chunk that has one,
    and score and turns are those of the newest chunk that has a status
    line, older chunks being consulted only when newer ones have none. *)
Theorem parse_banner_of_joined_chunks (chunks : list string) :
  banner_lines (join nl chunks) = List.concat (map banner_lines chunks)
  /\ parse_banner (join nl chunks)
     = (if existsb overlong (List.concat (map banner_lines chunks))
        then Raise ValueError
        else Ok (hd EmptyString (List.concat (map banner_lines chunks)),
                 option_map fst (banner_score (join nl chunks)),
                 option_map snd (banner_score (join nl chunks))))
  /\ (forall older newest,
        banner_score (join nl (older ++ [newest]))
        = match banner_score newest with
          | Some m => Some m
          | None => banner_score (join nl older)
          end)
  /\ (forall oldest newer,
        hd EmptyString (banner_lines (join nl (oldest :: newer)))
        = match banner_lines oldest with
          | first :: _ => first
          | [] => hd EmptyString (banner_lines (join nl newer))
          end).
Proof.
  split; [apply banner_lines_join|].
  split.
  { rewrite parse_banner_cases. unfold banner_score.
    rewrite banner_lines_join. reflexivity. }
  split.
  { intros older newest. unfold banner_score.
    rewrite !banner_lines_join, map_app, concat_app, map_app, last_some_app.
    simpl. rewrite app_nil_r. reflexivity. }
  intros oldest newer. rewrite !banner_lines_join. simpl.
  destruct (banner_lines oldest); reflexivity.
Qed.

(** ** Further facts about the string primitives *)

Lemma lstrip_by_idem (p : ascii -> bool) (s : string) :
  lstrip_by p (lstrip_by p s) = lstrip_by p s.
Proof.
  induction s as [|c s IH]; simpl; [reflexivity|].
  destruct (p c) eqn:Hc; [exact IH|]. simpl. rewrite Hc. reflexivity.
Qed.

Lemma rstrip_by_fixed (p : ascii -> bool) (s : string) :
  (forall c, last_char s = Some c -> p c = false) -> rstrip_by p s = s.
Proof.
  induction s as [|c s IH]; intros H; [reflexivity|].
  cbn [rstrip_by]. destruct s as [|d s'].
  - simpl. rewrite (H c eq_refl). reflexivity.
  - rewrite IH by (intros x Hx; apply H; exact Hx). reflexivity.
Qed.

Lemma last_char_lstrip_by (p : ascii -> bool) (s : string) :
  truthy (lstrip_by p s) = true -> last_char (lstrip_by p s) = last_char s.
Proof.
  induction s as [|c s IH]; [discriminate|].
  cbn [lstrip_by]. destruct (p c); [|reflexivity].
  intros H. rewrite (IH H). destruct s; [discriminate H | reflexivity].
Qed.

Lemma strip_rstrip (s : string) : strip (rstrip s) = strip s.
Proof. unfold strip, rstrip. rewrite rstrip_by_idem. reflexivity. Qed.

Lemma rstrip_strip (s : string) : rstrip (strip s) = strip s.
Proof.
  unfold strip, lstrip, rstrip.
  destruct (truthy (lstrip_by isspace (rstrip_by isspace s))) eqn:Ht.
  - apply rstrip_by_fixed. intros c Hc.
    rewrite (last_char_lstrip_by _ _ Ht) in Hc.
    eapply rstrip_by_last; eauto.
  - destruct (lstrip_by isspace (rstrip_by isspace s)); [reflexivity | discriminate].
Qed.

Lemma strip_idem (s : string) : strip (strip s) = strip s.
Proof.
  unfold strip at 1. fold (rstrip (strip s)). rewrite rstrip_strip.
  unfold strip, lstrip. apply lstrip_by_idem.
Qed.

Lemma all_chars_app (q : ascii -> bool) (a b : string) :
  all_chars q (a ++ b) = all_chars q a && all_chars q b.
Proof.
  induction a as [|c a IH]; simpl; [reflexivity|].
  rewrite IH, andb_assoc. reflexivity.
Qed.

Lemma all_chars_lstrip_by (q p : ascii -> bool) (s : string) :
  all_chars q s = true -> all_chars q (lstrip_by p s) = true.
Proof.
  intros H. destruct (lstrip_by_suffix p s) as [u E].
  rewrite E, all_chars_app in H. apply andb_true_iff in H. tauto.
Qed.

Lemma all_chars_rstrip_by (q p : ascii -> bool) (s : string) :
  all_chars q s = true -> all_chars q (rstrip_by p s) = true.
Proof.
  intros H. destruct (rstrip_by_prefix p s) as [v E].
  rewrite E, all_chars_app in H. apply andb_true_iff in H. tauto.
Qed.

Lemma all_chars_strip (q : ascii -> bool) (s : string) :
  all_chars q s = true -> all_chars q (strip s) = true.
Proof.
  intros H. unfold strip, lstrip, rstrip.
  apply all_chars_lstrip_by, all_chars_rstrip_by, H.
Qed.

Lemma all_chars_join (q : ascii -> bool) (sep : string) (parts : list string) :
  all_chars q sep = true ->
  Forall (fun p => all_chars q p = true) parts ->
  all_chars q (join sep parts) = true.
Proof.
  intros Hsep. induction 1 as [|p ps Hp Hps IH]; [reflexivity|].
  destruct ps as [|p' ps]; [exact Hp|].
  change (join sep (p :: p' :: ps)) with (p ++ sep ++ join sep (p' :: ps))%string.
  rewrite !all_chars_app, Hp, Hsep, IH. reflexivity.
Qed.

(** No line of [splitlines] holds a line boundary. *)
Lemma lines_from_one_line (s : string) :
  forall f, Forall (fun l => one_line l = true) (lines_from f s).
Proof.
  induction s as [|c s IH]; intros f; cbn [lines_from]; [constructor|].
  destruct (f && Ascii.eqb c LF); [apply IH|].
  destruct (is_linebreak c) eqn:Hc.
  - constructor; [reflexivity | apply IH].
  - specialize (IH false). destruct (lines_from false s) as [|l ls].
    + constructor; [|constructor]. unfold one_line. simpl. rewrite Hc. reflexivity.
    + inversion IH; subst. constructor; [|assumption].
      unfold one_line in *. simpl. rewrite Hc. simpl. assumption.
Qed.

(** ** Further properties of [parse_game_state] *)

Lemma skip_empties_eq (rest : list string) :
  forall i, skip_empties rest i = i + List.length (take_while blank rest).
Proof.
  induction rest as [|l rest IH]; intros i; simpl; [lia|].
  destruct (blank l); simpl; [rewrite IH|]; lia.
Qed.

Lemma skipn_take_while {A : Type} (p : A -> bool) (l : list A) :
  skipn (List.length (take_while p l)) l = drop_while p l.
Proof.
  induction l as [|x l IH]; simpl; [reflexivity|].
  destruct (p x); simpl; [exact IH | reflexivity].
Qed.

Lemma find_room_find (rest : list string) :
  forall i, option_map fst (find_room rest i) = find title_line (map strip rest).
Proof.
  induction rest as [|l rest IH]; intros i; simpl; [reflexivity|].
  unfold title_line.
  destruct (truthy (strip l)); simpl; [|apply IH].
  destruct (is_status (strip l)); simpl; [apply IH|].
  destruct (startswith (strip l) "["); simpl; [apply IH | reflexivity].
Qed.

Lemma find_title_drop_blank (l : list string) :
  find title_line (map strip (drop_while blank l))
  = find title_line (map strip l).
Proof.
  induction l as [|x l IH]; simpl; [reflexivity|].
  destruct (blank x) eqn:Hb; [|reflexivity].
  rewrite IH. unfold title_line. unfold blank in Hb.
  destruct (truthy (strip x)); [discriminate | reflexivity].
Qed.

Lemma room_and_index_find (lines : list string) :
  fst (room_and_index lines) = find title_line (map strip lines).
Proof.
  unfold room_and_index.
  rewrite skip_empties_eq. simpl (0 + _).
  rewrite skipn_take_while, <- find_title_drop_blank.
  rewrite <- (find_room_find (drop_while blank lines)
                (List.length (take_while blank lines))).
  destruct (find_room _ _) as [[s i]|]; reflexivity.
Qed.

Lemma map_strip_state_lines (text : string) :
  map strip (state_lines text) = map strip (splitlines text).
Proof.
  unfold state_lines. rewrite map_map. apply map_ext. apply strip_rstrip.
Qed.

Lemma room_eq (text : string) :
  fst (room_and_index (state_lines text))
  = find title_line (map strip (splitlines text)).
Proof. rewrite room_and_index_find, map_strip_state_lines. reflexivity. Qed.

(** X3: the room [parse_game_state] returns is the first line of the text
    that, once stripped, is not empty, holds neither "Score:" nor "Turns:"
    and does not start with "["; it is returned stripped.  The room is
    unset exactly when the text has no such line. *)
Theorem parse_game_state_room (text : string) :
  exists g,
    parse_game_state text = Ok g
    /\ room g = find title_line (map strip (splitlines text))
    /\ match room g with
       | Some r =>
           In r (map strip (splitlines text))
           /\ truthy r = true /\ is_status r = false
           /\ startswith r "[" = false /\ strip r = r
       | None =>
           Forall (fun l => title_line (strip l) = false) (splitlines text)
       end.
Proof.
  eexists. split; [apply parse_game_state_eq|]. cbn [room].
  rewrite room_eq. split; [reflexivity|].
  destruct (find title_line (map strip (splitlines text))) as [r|] eqn:Hf.
  - apply find_some in Hf. destruct Hf as [Hin Ht].
    split; [exact Hin|].
    unfold title_line in Ht.
    apply andb_true_iff in Ht. destruct Ht as [Ht Hb].
    apply andb_true_iff in Ht. destruct Ht as [Ht Hs].
    apply negb_true_iff in Hs, Hb.
    repeat split; auto.
    apply in_map_iff in Hin. destruct Hin as (l & <- & _). apply strip_idem.
  - apply Forall_forall. intros l Hl.
    apply (find_none _ _ Hf). apply in_map. exact Hl.
Qed.

Lemma find_title_filter (l : list string) :
  find title_line (filter truthy l) = find title_line l.
Proof.
  induction l as [|x l IH]; simpl; [reflexivity|].
  unfold title_line at 2.
  destruct (truthy x) eqn:Hx; simpl.
  - unfold title_line at 1. rewrite Hx, IH. reflexivity.
  - exact IH.
Qed.

(** X4: the two extractors on the same text: the location [parse_banner]
    returns is the first non-blank line; the room of [parse_game_state] is
    that same line when it is neither a status line nor a diagnostic line,
    and is another line or unset otherwise; a text without a non-blank line
    gives the empty location and no room.  (Where [parse_banner] returns
    nothing, a line holds a numeral longer than [int] takes.) *)
Theorem location_and_room_agree (text : string) :
  exists g,
    parse_game_state text = Ok g
    /\ match parse_banner text with
       | Ok (loc, sc, tu) =>
           match banner_lines text with
           | [] => loc = EmptyString /\ room g = None
           | first :: _ =>
               loc = first
               /\ if title_line first then room g = Some loc
                  else room g <> Some loc
           end
       | Raise e => e = ValueError /\ existsb overlong (banner_lines text) = true
       end.
Proof.
  eexists. split; [apply parse_game_state_eq|]. cbn [room].
  rewrite parse_banner_cases.
  destruct (existsb overlong (banner_lines text)); [auto|].
  rewrite room_eq, <- find_title_filter. fold (banner_lines text).
  destruct (banner_lines text) as [|first rest] eqn:Hb; simpl; [auto|].
  split; [reflexivity|].
  destruct (title_line first) eqn:Ht; [reflexivity|].
  intros H. apply find_some in H. destruct H as [_ H]. congruence.
Qed.

Lemma drop_while_head {A : Type} (p : A -> bool) (l : list A) (x : A) (r : list A) :
  drop_while p l = x :: r -> p x = false /\ In x l.
Proof.
  induction l as [|y l IH]; simpl; [discriminate|].
  destruct (p y) eqn:Hy.
  - intros H. destruct (IH H). auto.
  - intros H. inversion H; subst. auto.
Qed.

Lemma in_skipn {A : Type} (n : nat) (l : list A) (x : A) :
  In x (skipn n l) -> In x l.
Proof.
  intros H. rewrite <- (firstn_skipn n l). apply in_or_app. right. exact H.
Qed.

(** X5: [parse_game_state] returns a non-empty inventory only for a text
    that has, after its room title, a line that is not blank, is not a
    status line and is an inventory introduction (it starts with "you are
    carrying" or contains "you are carrying:", in any letter case); for
    every other text the inventory is empty. *)
Theorem inventory_needs_introduction (text : string) :
  exists g,
    parse_game_state text = Ok g
    /\ (inventory g = []
        \/ exists l,
             In l (body_lines text) /\ In l (state_lines text)
             /\ blank l = false /\ is_status l = false
             /\ is_inventory_intro l = true).
Proof.
  eexists. split; [apply parse_game_state_eq|]. cbn [inventory].
  destruct (drop_while descriptive (body_lines text)) as [|l rest] eqn:Hd;
    [left; reflexivity|].
  destruct (drop_while_head _ _ _ _ Hd) as [Hn Hin].
  simpl. destruct (blank l) eqn:Hb; [left; reflexivity|].
  destruct (is_status l) eqn:Hs; [left; reflexivity|].
  right. exists l. split; [exact Hin|].
  split; [eapply in_skipn; exact Hin|].
  unfold descriptive in Hn. rewrite Hb, Hs in Hn. simpl in Hn.
  apply negb_false_iff in Hn. auto.
Qed.

(** *** Every field is a single line *)

Lemma Forall_take_while {A : Type} (P : A -> Prop) (p : A -> bool) (l : list A) :
  Forall P l -> Forall P (take_while p l).
Proof.
  induction 1 as [|x l Hx _ IH]; simpl; [constructor|].
  destruct (p x); [constructor; assumption | constructor].
Qed.

Lemma Forall_drop_while {A : Type} (P : A -> Prop) (p : A -> bool) (l : list A) :
  Forall P l -> Forall P (drop_while p l).
Proof.
  induction 1 as [|x l Hx Hl IH]; simpl; [constructor|].
  destruct (p x); [exact IH | constructor; assumption].
Qed.

Lemma all_chars_after_first (q : ascii -> bool) (c : ascii) (s r : string) :
  after_first c s = Some r -> all_chars q s = true -> all_chars q r = true.
Proof.
  induction s as [|a s IH]; simpl; [discriminate|].
  intros H Hq. apply andb_true_iff in Hq. destruct Hq as [_ Hq].
  destruct (Ascii.eqb a c); [inversion H; subst; exact Hq | auto].
Qed.

Lemma all_chars_split_literals (q : ascii -> bool) (alts : list string) (s : string) :
  all_chars q s = true ->
  forall skip,
    Forall (fun p => all_chars q p = true) (Re.split_literals alts skip s).
Proof.
  induction s as [|c s IH]; intros H skip.
  - repeat constructor.
  - simpl in H. apply andb_true_iff in H. destruct H as [Hc Hs].
    cbn [Re.split_literals]. destruct skip as [|k]; [|apply IH; exact Hs].
    destruct (Re.first_literal alts (String c s)).
    + constructor; [reflexivity | apply IH; exact Hs].
    + specialize (IH Hs 0).
      destruct (Re.split_literals alts 0 s) as [|p ps].
      * repeat constructor. simpl. rewrite Hc. reflexivity.
      * inversion IH; subst. constructor; [|assumption].
        simpl. rewrite Hc. assumption.
Qed.

Lemma all_chars_item (q : ascii -> bool) (s : string) :
  all_chars q s = true -> all_chars q (rstrip_dot (strip s)) = true.
Proof.
  intros H. unfold rstrip_dot. apply all_chars_rstrip_by, all_chars_strip, H.
Qed.

Lemma inventory_at_one_line (stopped : list string) :
  Forall (fun l => one_line l = true) stopped ->
  Forall (fun item => one_line item = true) (inventory_at stopped).
Proof.
  intros H. destruct stopped as [|l rest]; [constructor|].
  inversion H as [|? ? Hl Hrest]; subst. simpl.
  destruct (blank l || is_status l); [constructor|].
  apply Forall_app. split.
  - unfold items_after_colon.
    destruct (after_first ":" l) as [r|] eqn:Ha; [|constructor].
    unfold inline_items. apply Forall_forall. intros item Hin.
    apply in_map_iff in Hin. destruct Hin as (part & <- & Hin).
    apply filter_In in Hin. destruct Hin as [Hin _].
    apply all_chars_item.
    pose proof (all_chars_split_literals (fun c => negb (is_linebreak c))
                  [","; ";"; " and "] (strip r)
                  (all_chars_strip _ _ (all_chars_after_first _ _ _ _ Ha Hl)) 0)
      as Hall.
    rewrite Forall_forall in Hall. apply Hall. exact Hin.
  - apply Forall_forall. intros item Hin.
    apply in_map_iff in Hin. destruct Hin as (x & <- & Hin).
    apply all_chars_item.
    pose proof (Forall_take_while _ (fun l => negb (blank l)) _ Hrest) as Ht.
    rewrite Forall_forall in Ht. apply Ht. exact Hin.
Qed.

Lemma state_lines_one_line (text : string) :
  Forall (fun l => one_line l = true) (state_lines text).
Proof.
  unfold state_lines, splitlines. apply Forall_forall. intros l Hin.
  apply in_map_iff in Hin. destruct Hin as (x & <- & Hin).
  apply all_chars_rstrip_by.
  pose proof (lines_from_one_line text false) as H.
  rewrite Forall_forall in H. apply H. exact Hin.
Qed.

(** X6: whatever the text, each field of the result of [parse_game_state]
    is a single line: the room, the description and every inventory item
    are free of line boundaries, and the description has no white space at
    either end. *)
Theorem game_state_fields_single_line (text : string) :
  exists g,
    parse_game_state text = Ok g
    /\ match room g with Some r => one_line r = true | None => True end
    /\ one_line (description g) = true
    /\ strip (description g) = description g
    /\ Forall (fun item => one_line item = true) (inventory g).
Proof.
  eexists. split; [apply parse_game_state_eq|]. cbn [room description inventory].
  pose proof (state_lines_one_line text) as Hl.
  assert (Hbody : Forall (fun l => one_line l = true) (body_lines text))
    by (apply Forall_skipn; exact Hl).
  split.
  { rewrite room_and_index_find.
    destruct (find title_line (map strip (state_lines text))) as [r|] eqn:Hf;
      [|exact I].
    apply find_some in Hf. destruct Hf as [Hin _].
    apply in_map_iff in Hin. destruct Hin as (l & <- & Hin).
    apply all_chars_strip. rewrite Forall_forall in Hl. apply Hl. exact Hin. }
  split.
  { apply all_chars_strip, all_chars_join; [reflexivity|].
    apply Forall_take_while. exact Hbody. }
  split; [apply strip_idem|].
  apply inventory_at_one_line, Forall_drop_while, Hbody.
Qed.

(** ** The command line taken from a response *)

Lemma find_first_nonblank (lines : list string) :
  match find truthy (map strip lines) with
  | Some cmd =>
      exists pre l post,
        lines = pre ++ l :: post
        /\ Forall (fun x => blank x = true) pre
        /\ cmd = strip l /\ truthy cmd = true
  | None => Forall (fun x => blank x = true) lines
  end.
Proof.
  induction lines as [|x lines IH]; simpl; [constructor|].
  destruct (truthy (strip x)) eqn:Hx.
  - exists [], x, lines. repeat split; auto.
  - destruct (find truthy (map strip lines)) as [cmd|].
    + destruct IH as (pre & l & post & -> & Hpre & Hc & Ht).
      exists (x :: pre), l, post. repeat split; auto.
      constructor; [|exact Hpre]. unfold blank. rewrite Hx. reflexivity.
    + constructor; [|exact IH]. unfold blank. rewrite Hx. reflexivity.
Qed.

(** X7: the command taken from a response is its first line that is not
    blank, stripped: it is never empty, has no white space at either end
    and holds no line boundary, and every line before it is blank.  No
    command is found exactly when every line of the response is blank. *)
Theorem first_command_is_first_nonblank_line (response : string) :
  match Agent.first_command response with
  | Some cmd =>
      truthy cmd = true /\ strip cmd = cmd /\ one_line cmd = true
      /\ exists pre l post,
           splitlines response = pre ++ l :: post
           /\ Forall (fun x => blank x = true) pre
           /\ cmd = strip l
  | None => Forall (fun x => blank x = true) (splitlines response)
  end.
Proof.
  unfold Agent.first_command.
  pose proof (find_first_nonblank (splitlines response)) as H.
  destruct (find truthy (map strip (splitlines response))) as [cmd|]; [|exact H].
  destruct H as (pre & l & post & E & Hpre & -> & Ht).
  split; [exact Ht|]. split; [apply strip_idem|].
  split; [|exists pre, l, post; auto].
  apply all_chars_strip.
  pose proof (lines_from_one_line response false) as Hl.
  unfold splitlines in E. rewrite E in Hl.
  apply Forall_app in Hl. destruct Hl as [_ Hl]. inversion Hl; assumption.
Qed.

Lemma canned_command (i : nat) :
  Agent.first_command (Mock.canned i)
  = Some (nth (i mod 5) mock_commands EmptyString)
  /\ truthy (Mock.canned i) = true.
Proof.
  unfold Mock.canned. change (List.length Mock.responses) with 5.
  assert (H : i mod 5 < 5) by (apply Nat.mod_upper_bound; discriminate).
  destruct (i mod 5) as [|[|[|[|[|k]]]]]; try (split; vm_compute; reflexivity).
  lia.
Qed.

(** X8: the command extracted from the mock policy's response number [i]
    is element [i mod 5] of look, north, take lamp, open mailbox, south,
    the sequence its docstring gives: a mock response always yields a
    command. *)
Theorem mock_commands_follow_docstring (i : nat) :
  exists response cursor,
    Mock.next i = Ok (response, cursor)
    /\ cursor = S i
    /\ Agent.first_command response
       = Some (nth (i mod List.length mock_commands) mock_commands EmptyString)
    /\ In (nth (i mod List.length mock_commands) mock_commands EmptyString)
         mock_commands.
Proof.
  exists (Mock.canned i), (S i).
  split; [apply MockFacts.next_eq|]. split; [reflexivity|].
  split; [apply canned_command|].
  apply nth_In. apply Nat.mod_upper_bound. discriminate.
Qed.

(** ** Further properties of the turn loop *)

Module TraceFacts.
Import Agent Trace.

Lemma asked_app (a b : list event) : asked (a ++ b) = asked a ++ asked b.
Proof. apply flat_map_app. Qed.

Lemma sent_app (a b : list event) : sent (a ++ b) = sent a ++ sent b.
Proof. apply flat_map_app. Qed.

Section Profiles.

Variable lib : pexpect_lib.
Variable cfg : config.
Variable env : nat -> turn_env.
Variable py_str : Llm.json -> string.

Local Abbreviation iterate := (iterate lib cfg env py_str).
Local Abbreviation turn_body := (turn_body lib cfg env py_str).
Local Abbreviation main := (main lib cfg env py_str).

(** *** What the logging toggles allow *)

Ltac toggles :=
  repeat first
    [ apply Forall_nil
    | apply Forall_app; split
    | apply Forall_cons;
      [ cbn [allowed_by_toggles pre_use_mock];
        repeat match goal with
               | H : _ = true |- _ => rewrite H
               | H : _ = false |- _ => rewrite H
               end;
        rewrite ?Bool.eqb_reflx; reflexivity
      | ] ].

Lemma received_toggles t cmd response loc sc tu st :
  Forall (fun ev => allowed_by_toggles cfg ev = true)
    (fst (received cfg t cmd response loc sc tu st)).
Proof.
  unfold received.
  destruct (read_output (before st) (after st)); simpl; [|toggles].
  destruct (simple_text cfg) eqn:Hst; simpl; [toggles|].
  rewrite parse_game_state_eq.
  destruct (simple_log cfg) eqn:Hsl, (verbose cfg) eqn:Hv; simpl; toggles.
Qed.

Lemma await_toggles t cmd response loc sc tu hist i :
  Forall (fun ev => allowed_by_toggles cfg ev = true)
    (fst (await lib cfg env t cmd response loc sc tu hist i)).
Proof.
  unfold await. destruct (expected (env t));
    try apply received_toggles. simpl. toggles.
Qed.

Lemma act_toggles t cmd response loc sc tu hist i :
  Forall (fun ev => allowed_by_toggles cfg ev = true)
    (fst (act lib cfg env t cmd response loc sc tu hist i)).
Proof.
  unfold act. rewrite parse_game_state_eq.
  destruct (sendline_ok (env t)).
  - pose proof (await_toggles t cmd response loc sc tu hist i) as H.
    destruct (await _ _ _ _ _ _ _ _ _ _ _) as [evs f]. simpl in *.
    destruct (simple_text cfg) eqn:Hst; simpl; toggles; exact H.
  - destruct (simple_text cfg) eqn:Hst; simpl; toggles.
Qed.

Lemma decide_toggles t loc sc tu hist i :
  Forall (fun ev => allowed_by_toggles cfg ev = true)
    (fst (decide lib cfg env py_str t loc sc tu hist i)).
Proof.
  unfold decide. destruct (consult _ _ _ _ _) as [response i'| |e];
    simpl; try toggles.
  destruct (truthy response); simpl; [|toggles].
  destruct (first_command response) as [cmd|]; simpl; [|toggles].
  pose proof (act_toggles t cmd response loc sc tu hist i') as H.
  destruct (act _ _ _ _ _ _ _ _ _ _ _) as [evs f]. simpl in *.
  toggles. exact H.
Qed.

Lemma turn_body_toggles t st :
  Forall (fun ev => allowed_by_toggles cfg ev = true) (fst (turn_body t st)).
Proof.
  unfold Agent.turn_body.
  destruct (observe st) as [[seen hist]|e] eqn:Ho; [|constructor].
  assert (Hseen : Forall (fun ev => allowed_by_toggles cfg ev = true) seen).
  { unfold observe in Ho.
    destruct (read_output (before st) (after st)) as [recent|]; [|discriminate].
    simpl in Ho. destruct (truthy (strip recent)); inversion Ho; toggles. }
  destruct (parse_banner _) as [[[loc sc] tu]|e]; [|exact Hseen].
  match goal with
  | |- context [decide ?a ?b ?c ?d ?e ?f ?g ?h ?i ?j] =>
      pose proof (decide_toggles e f g h i j) as H;
      destruct (decide a b c d e f g h i j) as [evs fl]
  end.
  simpl in *. apply Forall_app. split; [exact Hseen|exact H].
Qed.

Lemma iterate_toggles n :
  forall t st,
    Forall (fun ev => allowed_by_toggles cfg ev = true) (fst (iterate n t st)).
Proof.
  induction n as [|n IH]; intros t st; simpl; [constructor|].
  pose proof (turn_body_toggles t st) as Hb.
  destruct (turn_body t st) as [evs [st'|why|e]]; simpl in *; try exact Hb.
  specialize (IH (S t) st').
  destruct (Agent.iterate _ _ _ _ n (S t) st') as [evs' e']. simpl in *.
  apply Forall_app. split; assumption.
Qed.

Lemma main_toggles st0 :
  Forall (fun ev => allowed_by_toggles cfg ev = true) (fst (main st0)).
Proof.
  unfold Agent.main.
  pose proof (iterate_toggles (max_turns cfg) 1 st0) as H.
  destruct (iterate (max_turns cfg) 1 st0) as [evs [st|why|e]]; simpl in *;
    try exact H;
    (apply Forall_app; split; [exact H | repeat constructor]).
Qed.

End Profiles.
End TraceFacts.

(** X9: the records of a run follow the logging toggles.  With
    SIMPLE_TEXT no JSON record is written, and without it no plain-text
    record; a compact record is written only with SIMPLE_LOG and a full
    post-receive record only without it; records are echoed on the console
    only with VERBOSE; and every pre-send record carries the mock flag of
    the run. *)
Theorem records_follow_toggles
    (lib : Agent.pexpect_lib) (cfg : Agent.config)
    (env : nat -> Agent.turn_env) (py_str : Llm.json -> string)
    (st0 : Agent.loop_state) :
  Forall
    (fun ev =>
       match ev with
       | Agent.JsonPre r =>
           Agent.simple_text cfg = false
           /\ Agent.pre_use_mock r = Agent.use_mock cfg
       | Agent.JsonPost _ =>
           Agent.simple_text cfg = false /\ Agent.simple_log cfg = false
       | Agent.JsonMinimal _ =>
           Agent.simple_text cfg = false /\ Agent.simple_log cfg = true
       | Agent.TextLog _ _ _ _ => Agent.simple_text cfg = true
       | Agent.PrintLogPost _ =>
           Agent.verbose cfg = true /\ Agent.simple_log cfg = false
       | Agent.PrintLogMinimal _ =>
           Agent.verbose cfg = true /\ Agent.simple_log cfg = true
       | _ => True
       end)
    (fst (Agent.main lib cfg env py_str st0)).
Proof.
  eapply Forall_impl; [|apply TraceFacts.main_toggles].
  intros ev H. destruct ev; try exact I; simpl in H.
  - apply andb_true_iff in H. destruct H as [H1 H2].
    apply andb_true_iff in H1. destruct H1 as [H1 H3].
    apply negb_true_iff in H3. auto.
  - apply andb_true_iff in H. destruct H as [H1 H2].
    apply andb_true_iff in H1. destruct H1 as [H1 H3]. auto.
  - apply andb_true_iff in H. destruct H as [H1 H2].
    apply negb_true_iff in H1. apply Bool.eqb_prop in H2. auto.
  - apply andb_true_iff in H. destruct H as [H1 H2].
    apply negb_true_iff in H1, H2. auto.
  - apply andb_true_iff in H. destruct H as [H1 H2].
    apply negb_true_iff in H1. auto.
  - exact H.
Qed.

Module ProfileFacts.
Import Agent Trace.

Section Profiles.

Variable lib : pexpect_lib.
Variable cfg : config.
Variable env : nat -> turn_env.
Variable py_str : Llm.json -> string.

Local Abbreviation iterate := (iterate lib cfg env py_str).
Local Abbreviation turn_body := (turn_body lib cfg env py_str).
Local Abbreviation main := (main lib cfg env py_str).

Ltac abouts :=
  repeat first
    [ apply Forall_nil
    | apply Forall_app; split
    | apply Forall_cons; [first [left; reflexivity | right; reflexivity]|] ].

Lemma received_profile t cmd response loc sc tu st :
  asked (fst (received cfg t cmd response loc sc tu st)) = []
  /\ sent (fst (received cfg t cmd response loc sc tu st)) = []
  /\ Forall (about t cmd) (fst (received cfg t cmd response loc sc tu st)).
Proof.
  unfold received.
  destruct (read_output (before st) (after st)); simpl;
    [|repeat split; constructor].
  destruct (simple_text cfg); simpl; [repeat split; abouts|].
  rewrite parse_game_state_eq.
  destruct (simple_log cfg), (verbose cfg); simpl; repeat split; abouts.
Qed.

Lemma await_profile t cmd response loc sc tu hist i :
  asked (fst (await lib cfg env t cmd response loc sc tu hist i)) = []
  /\ sent (fst (await lib cfg env t cmd response loc sc tu hist i)) = []
  /\ Forall (about t cmd)
       (fst (await lib cfg env t cmd response loc sc tu hist i)).
Proof.
  unfold await. destruct (expected (env t));
    try apply received_profile. simpl. repeat split. abouts.
Qed.

(** The profile of an iteration from the command on. *)
Lemma act_profile t cmd response loc sc tu hist i :
  asked (fst (act lib cfg env t cmd response loc sc tu hist i)) = []
  /\ Forall (about t cmd) (fst (act lib cfg env t cmd response loc sc tu hist i))
  /\ (sent (fst (act lib cfg env t cmd response loc sc tu hist i)) = [(t, cmd)]
      \/ (sent (fst (act lib cfg env t cmd response loc sc tu hist i)) = []
          /\ Forall (fun ev => post_key ev = None)
               (fst (act lib cfg env t cmd response loc sc tu hist i))
          /\ forall st',
               snd (act lib cfg env t cmd response loc sc tu hist i)
               <> Continue st')).
Proof.
  unfold act. rewrite parse_game_state_eq.
  destruct (sendline_ok (env t)).
  - destruct (await_profile t cmd response loc sc tu hist i) as (Ha & Hs & Hp).
    destruct (await _ _ _ _ _ _ _ _ _ _ _) as [evs f]. simpl in *.
    destruct (simple_text cfg); simpl; rewrite ?Ha, ?Hs;
      (split; [reflexivity|]); (split; [abouts; exact Hp | left; reflexivity]).
  - destruct (simple_text cfg); simpl;
      (split; [reflexivity|]); (split; [abouts|]);
      right; (split; [reflexivity|]); (split; [repeat constructor | discriminate]).
Qed.

Lemma decide_profile t loc sc tu hist i :
  asked (fst (decide lib cfg env py_str t loc sc tu hist i)) = [t]
  /\ ((exists cmd,
          sent (fst (decide lib cfg env py_str t loc sc tu hist i)) = [(t, cmd)]
          /\ Forall (about t cmd)
               (fst (decide lib cfg env py_str t loc sc tu hist i)))
      \/ (sent (fst (decide lib cfg env py_str t loc sc tu hist i)) = []
          /\ Forall (fun ev => post_key ev = None)
               (fst (decide lib cfg env py_str t loc sc tu hist i))
          /\ forall st',
               snd (decide lib cfg env py_str t loc sc tu hist i)
               <> Continue st')).
Proof.
  unfold decide.
  destruct (consult _ _ _ _ _) as [response i'| |e]; simpl;
    try (split; [reflexivity|]; right;
         split; [reflexivity|]; split; [repeat constructor | discriminate]).
  destruct (truthy response); simpl;
    try (split; [reflexivity|]; right;
         split; [reflexivity|]; split; [repeat constructor | discriminate]).
  destruct (first_command response) as [cmd|]; simpl;
    try (split; [reflexivity|]; right;
         split; [reflexivity|]; split; [repeat constructor | discriminate]).
  destruct (act_profile t cmd response loc sc tu hist i')
    as (Ha & Hp & [Hs|(Hs & Hn & Hf)]);
    destruct (act _ _ _ _ _ _ _ _ _ _ _) as [evs f]; simpl in *;
    rewrite Ha; (split; [reflexivity|]).
  - left. exists cmd. rewrite Hs. split; [reflexivity|].
    constructor; [left; reflexivity | exact Hp].
  - right. rewrite Hs. split; [reflexivity|].
    split; [constructor; [reflexivity | exact Hn] | exact Hf].
Qed.

(** The profile of an iteration: it consults the oracle at most once and
    sends at most one command; it goes on only after sending one; its
    post-receive records are about the command it sent. *)
Lemma turn_body_profile t st :
  (asked (fst (turn_body t st)) = []
   /\ sent (fst (turn_body t st)) = []
   /\ Forall (fun ev => post_key ev = None) (fst (turn_body t st))
   /\ exists e, snd (turn_body t st) = Uncaught e)
  \/ (asked (fst (turn_body t st)) = [t]
      /\ sent (fst (turn_body t st)) = []
      /\ Forall (fun ev => post_key ev = None) (fst (turn_body t st))
      /\ forall st', snd (turn_body t st) <> Continue st')
  \/ (asked (fst (turn_body t st)) = [t]
      /\ exists cmd,
           sent (fst (turn_body t st)) = [(t, cmd)]
           /\ Forall (about t cmd) (fst (turn_body t st))).
Proof.
  unfold Agent.turn_body.
  destruct (observe st) as [[seen hist]|e] eqn:Ho;
    [|left; simpl; repeat split; eauto].
  assert (Hseen : asked seen = [] /\ sent seen = []
                  /\ Forall (fun ev => post_key ev = None) seen).
  { unfold observe in Ho.
    destruct (read_output (before st) (after st)) as [recent|]; [|discriminate].
    simpl in Ho. destruct (truthy (strip recent)); inversion Ho; subst;
      repeat split; repeat constructor. }
  destruct Hseen as (Ha & Hs & Hn).
  destruct (parse_banner _) as [[[loc sc] tu]|e];
    [|left; simpl; repeat split; eauto].
  right.
  match goal with
  | |- context [decide ?a ?b ?c ?d ?e ?f ?g ?h ?i ?j] =>
      destruct (decide_profile e f g h i j)
        as (Hda & [(cmd & Hds & Hdp)|(Hds & Hdn & Hdf)]);
      destruct (decide a b c d e f g h i j) as [evs fl]
  end; simpl in *; rewrite TraceFacts.asked_app, TraceFacts.sent_app, Ha, Hs, Hda, Hds; simpl.
  - right. split; [reflexivity|]. exists cmd. split; [reflexivity|].
    apply Forall_app. split; [|exact Hdp].
    eapply Forall_impl; [|exact Hn]. intros ev H. left. exact H.
  - left. split; [reflexivity|]. split; [reflexivity|].
    split; [apply Forall_app; split; assumption | exact Hdf].
Qed.

Lemma answered_in_app_l (a b : list event) (ev : event) :
  answered_in a ev -> answered_in (a ++ b) ev.
Proof.
  unfold answered_in. destruct (post_key ev); [|auto].
  intros H. rewrite TraceFacts.sent_app. apply in_or_app. left. exact H.
Qed.

Lemma answered_in_app_r (a b : list event) (ev : event) :
  answered_in b ev -> answered_in (a ++ b) ev.
Proof.
  unfold answered_in. destruct (post_key ev); [|auto].
  intros H. rewrite TraceFacts.sent_app. apply in_or_app. right. exact H.
Qed.

Lemma turn_body_answered t st :
  Forall (answered_in (fst (turn_body t st))) (fst (turn_body t st)).
Proof.
  destruct (turn_body_profile t st)
    as [(_ & _ & Hn & _)|[(_ & _ & Hn & _)|(_ & cmd & Hs & Hp)]].
  - eapply Forall_impl; [|exact Hn]. intros ev H.
    unfold answered_in. rewrite H. exact I.
  - eapply Forall_impl; [|exact Hn]. intros ev H.
    unfold answered_in. rewrite H. exact I.
  - eapply Forall_impl; [|exact Hp]. intros ev [H|H];
      unfold answered_in; rewrite H, ?Hs; simpl; auto.
Qed.

(** The profile of [n] iterations from turn [t]: the oracle is consulted
    in the turns [t], [t + 1], ... without a gap, a command is sent in
    each of these turns but possibly the last, and every post-receive
    record follows the sending it is about. *)
Lemma iterate_profile n :
  forall t st,
    exists k j,
      asked (fst (iterate n t st)) = seq t k
      /\ map fst (sent (fst (iterate n t st))) = seq t j
      /\ j <= k /\ k <= n /\ k <= S j
      /\ Forall (answered_in (fst (iterate n t st))) (fst (iterate n t st)).
Proof.
  induction n as [|n IH]; intros t st.
  - exists 0, 0. simpl. repeat split; auto; try constructor.
  - cbn [Agent.iterate].
    pose proof (turn_body_profile t st) as Hp.
    pose proof (turn_body_answered t st) as Hans.
    destruct (turn_body t st) as [evs [st'|why|e]] eqn:Hb; cbn [fst snd] in *.
    + destruct Hp as [(_ & _ & _ & e & He)|[(_ & _ & _ & Hf)|(Ha & cmd & Hs & _)]];
        [discriminate He | destruct (Hf st' eq_refl) |].
      destruct (IH (S t) st') as (k & j & Ha' & Hs' & Hjk & Hkn & Hkj & Hans').
      destruct (Agent.iterate _ _ _ _ n (S t) st') as [evs' e']. cbn [fst] in *.
      exists (S k), (S j).
      rewrite TraceFacts.asked_app, TraceFacts.sent_app, map_app, Ha, Hs, Ha', Hs'.
      repeat split; try lia; try reflexivity.
      apply Forall_app. split.
      * eapply Forall_impl; [|exact Hans]. intros ev H.
        apply answered_in_app_l. exact H.
      * eapply Forall_impl; [|exact Hans']. intros ev H.
        apply answered_in_app_r. exact H.
    + destruct Hp as [(_ & _ & _ & e & He)|[(Ha & Hs & _)|(Ha & cmd & Hs & _)]];
        [discriminate He| |].
      * exists 1, 0. rewrite Ha, Hs. repeat split; auto; lia.
      * exists 1, 1. rewrite Ha, Hs. repeat split; auto; lia.
    + destruct Hp as [(Ha & Hs & _)|[(Ha & Hs & _)|(Ha & cmd & Hs & _)]].
      * exists 0, 0. rewrite Ha, Hs. repeat split; auto; lia.
      * exists 1, 0. rewrite Ha, Hs. repeat split; auto; lia.
      * exists 1, 1. rewrite Ha, Hs. repeat split; auto; lia.
Qed.

End Profiles.
End ProfileFacts.

Lemma main_profile
    (lib : Agent.pexpect_lib) (cfg : Agent.config)
    (env : nat -> Agent.turn_env) (py_str : Llm.json -> string)
    (st0 : Agent.loop_state) :
  exists k j,
    Trace.asked (fst (Agent.main lib cfg env py_str st0)) = seq 1 k
    /\ map fst (Trace.sent (fst (Agent.main lib cfg env py_str st0))) = seq 1 j
    /\ j <= k /\ k <= Agent.max_turns cfg /\ k <= S j
    /\ Forall (Trace.answered_in (fst (Agent.main lib cfg env py_str st0)))
         (fst (Agent.main lib cfg env py_str st0)).
Proof.
  destruct (ProfileFacts.iterate_profile lib cfg env py_str
              (Agent.max_turns cfg) 1 st0)
    as (k & j & Ha & Hs & Hjk & Hkn & Hkj & Hans).
  exists k, j. unfold Agent.main.
  destruct (Agent.iterate lib cfg env py_str (Agent.max_turns cfg) 1 st0)
    as [evs [st|why|e]]; cbn [fst] in *;
    rewrite ?TraceFacts.asked_app, ?TraceFacts.sent_app, ?map_app, ?Ha, ?Hs;
    simpl; rewrite ?app_nil_r; repeat split; auto;
    (apply Forall_app; split;
     [ eapply Forall_impl; [|exact Hans]; intros ev H;
       apply ProfileFacts.answered_in_app_l; exact H
     | repeat constructor ]).
Qed.

Lemma in_map_fst_unique {A B : Type} (l : list (A * B)) :
  NoDup (map fst l) ->
  forall a b b', In (a, b) l -> In (a, b') l -> b = b'.
Proof.
  induction l as [|[x y] l IH]; simpl; intros Hnd a b b' H1 H2; [contradiction|].
  inversion Hnd as [|? ? Hx Hl]; subst.
  destruct H1 as [H1|H1], H2 as [H2|H2].
  - congruence.
  - inversion H1; subst. exfalso. apply Hx.
    apply (in_map fst) in H2. exact H2.
  - inversion H2; subst. exfalso. apply Hx.
    apply (in_map fst) in H1. exact H1.
  - eapply IH; eauto.
Qed.

(** X10: in every run the oracle is consulted in the turns 1, 2, ..., [k]
    in this order, once each, with [k] at most the maximum turn count; a
    command is sent in the turns 1, ..., [j], one per turn, where [j] is
    [k] or [k - 1]: only the last turn consulted can end without a
    command being sent. *)
Theorem turns_are_consecutive
    (lib : Agent.pexpect_lib) (cfg : Agent.config)
    (env : nat -> Agent.turn_env) (py_str : Llm.json -> string)
    (st0 : Agent.loop_state) :
  exists k j,
    Trace.asked (fst (Agent.main lib cfg env py_str st0)) = seq 1 k
    /\ map fst (Trace.sent (fst (Agent.main lib cfg env py_str st0))) = seq 1 j
    /\ j <= k /\ k <= Agent.max_turns cfg /\ k <= S j.
Proof.
  destruct (main_profile lib cfg env py_str st0) as (k & j & H).
  exists k, j. tauto.
Qed.

(** X11: every post-receive record of a run, full, compact or plain-text,
    names a turn and a command such that this command was sent to the
    game in this turn; and no turn has two commands sent, so the record's
    command is the one sent in its turn. *)
Theorem post_records_follow_their_command
    (lib : Agent.pexpect_lib) (cfg : Agent.config)
    (env : nat -> Agent.turn_env) (py_str : Llm.json -> string)
    (st0 : Agent.loop_state) :
  Forall
    (fun ev =>
       match Trace.post_key ev with
       | Some (t, cmd) =>
           In (Agent.Sendline t cmd) (fst (Agent.main lib cfg env py_str st0))
       | None => True
       end)
    (fst (Agent.main lib cfg env py_str st0))
  /\ (forall t cmd cmd',
        In (Agent.Sendline t cmd) (fst (Agent.main lib cfg env py_str st0)) ->
        In (Agent.Sendline t cmd') (fst (Agent.main lib cfg env py_str st0)) ->
        cmd = cmd').
Proof.
  destruct (main_profile lib cfg env py_str st0)
    as (k & j & _ & Hs & _ & _ & _ & Hans).
  assert (Hsent : forall t cmd evs,
             In (t, cmd) (Trace.sent evs) <-> In (Agent.Sendline t cmd) evs).
  { intros t cmd evs. unfold Trace.sent. rewrite in_flat_map. split.
    - intros (ev & Hin & Hev). destruct ev; simpl in Hev; try contradiction.
      destruct Hev as [Hev|[]]. inversion Hev; subst. exact Hin.
    - intros Hin. exists (Agent.Sendline t cmd). split; [exact Hin|].
      left. reflexivity. }
  split.
  - eapply Forall_impl; [|exact Hans]. intros ev H.
    unfold Trace.answered_in in H.
    destruct (Trace.post_key ev) as [[t cmd]|]; [|exact I].
    apply Hsent. exact H.
  - intros t cmd cmd' H1 H2. apply Hsent in H1, H2.
    eapply in_map_fst_unique; eauto.
    rewrite Hs. apply seq_NoDup.
Qed.

(** *** The text ahead of the marker *)

Module MarkerFacts.

Lemma drop_prefix_app (p s r v : string) :
  drop_prefix p s = Some r -> drop_prefix p (s ++ v) = Some (r ++ v)%string.
Proof.
  revert s. induction p as [|a p IH]; intros s H.
  - simpl in H. inversion H. reflexivity.
  - destruct s as [|c s]; [discriminate|].
    cbn [drop_prefix append] in *.
    destruct (Ascii.eqb a c); [apply IH; exact H | discriminate].
Qed.

Lemma drop_prefix_eq (p s r : string) :
  drop_prefix p s = Some r -> s = (p ++ r)%string.
Proof.
  revert s. induction p as [|a p IH]; intros s H.
  - simpl in H. inversion H. reflexivity.
  - destruct s as [|c s]; [discriminate|].
    cbn [drop_prefix] in H.
    destruct (Ascii.eqb_spec a c) as [->|]; [|discriminate].
    cbn [append]. f_equal. apply IH. exact H.
Qed.

Lemma marker_inside_eq (s : string) :
  marker_inside s
  = match drop_prefix "Score:" s with
    | Some (String _ _) => true
    | _ =>
        match s with
        | EmptyString => false
        | String _ s' => marker_inside s'
        end
    end.
Proof. destruct s; reflexivity. Qed.

Lemma marker_inside_cons (c : ascii) (s : string) :
  marker_inside s = true -> marker_inside (String c s) = true.
Proof.
  intros H. rewrite marker_inside_eq.
  destruct (drop_prefix "Score:" (String c s)) as [[|d r]|]; auto.
Qed.

Lemma marker_inside_app_l (u s : string) :
  marker_inside s = true -> marker_inside (u ++ s) = true.
Proof.
  intros H. induction u as [|c u IH]; [exact H|].
  cbn [append]. apply marker_inside_cons. exact IH.
Qed.

Lemma marker_inside_app_r (s v : string) :
  marker_inside s = true -> marker_inside (s ++ v) = true.
Proof.
  induction s as [|c s IH]; intros H; [discriminate H|].
  rewrite marker_inside_eq in H.
  cbn [append]. rewrite marker_inside_eq.
  destruct (drop_prefix "Score:" (String c s)) as [[|d r]|] eqn:Hd.
  - change (String c (s ++ v)) with (String c s ++ v)%string.
    rewrite (drop_prefix_app _ _ _ v Hd). cbn [append].
    destruct v; [apply IH; exact H | reflexivity].
  - change (String c (s ++ v)) with (String c s ++ v)%string.
    rewrite (drop_prefix_app _ _ _ v Hd). reflexivity.
  - destruct (drop_prefix "Score:" (String c (s ++ v))) as [[|d r]|];
      first [reflexivity | apply IH; exact H].
Qed.

(** A match of the score pattern has the marker and, after it, a digit at
    least. *)
Lemma search_marker_inside (s : string) (m : string * string) :
  Re.search_score_turns s = Some m -> marker_inside s = true.
Proof.
  induction s as [|c s IH].
  - intros H. vm_compute in H. discriminate.
  - intros H. cbn [Re.search_score_turns] in H.
    destruct (Re.score_turns_here (String c s)) as [m'|] eqn:Hh.
    + rewrite score_turns_here_longest in Hh.
      unfold Re.score_turns_longest in Hh. rewrite marker_inside_eq.
      destruct (drop_prefix "Score:" (String c s)) as [r1|]; [|discriminate].
      destruct r1 as [|d r]; [discriminate Hh | reflexivity].
    + apply marker_inside_cons. apply IH. exact H.
Qed.

Lemma lines_head_prefix (x l : string) (ls : list string) :
  lines_from false x = l :: ls -> exists v, x = (l ++ v)%string.
Proof.
  revert l ls. induction x as [|c x IH]; intros l ls H; [discriminate|].
  cbn [lines_from andb] in H.
  destruct (is_linebreak c).
  - inversion H. exists (String c x). reflexivity.
  - destruct (lines_from false x) as [|l1 ls1] eqn:Hx.
    + inversion H; subst. destruct x as [|d x].
      * exists EmptyString. reflexivity.
      * destruct (lines_from_nonempty d x Hx).
    + inversion H; subst. destruct (IH _ _ eq_refl) as [v ->].
      exists v. reflexivity.
Qed.

Lemma marker_inside_single (c : ascii) : marker_inside (String c "") = false.
Proof.
  rewrite marker_inside_eq. cbn [drop_prefix].
  destruct (Ascii.eqb "S" c); reflexivity.
Qed.

(** A line of a text that has the marker with a character after it: so
    has the text. *)
Lemma lines_marker_inside (x : string) :
  forall f l, In l (lines_from f x) -> marker_inside l = true ->
    marker_inside x = true.
Proof.
  induction x as [|c x IH]; intros f l Hin Hm; [destruct Hin|].
  cbn [lines_from] in Hin.
  destruct (f && Ascii.eqb c LF).
  { apply marker_inside_cons. eapply IH; eauto. }
  destruct (is_linebreak c).
  { destruct Hin as [<-|Hin]; [discriminate Hm|].
    apply marker_inside_cons. eapply IH; eauto. }
  destruct (lines_from false x) as [|l1 ls1] eqn:Hx.
  - destruct Hin as [<-|[]]. rewrite marker_inside_single in Hm. discriminate.
  - destruct Hin as [<-|Hin].
    + destruct (lines_head_prefix x l1 ls1 Hx) as [v Ev]. rewrite Ev.
      change (String c (l1 ++ v)) with (String c l1 ++ v)%string.
      apply marker_inside_app_r. exact Hm.
    + apply marker_inside_cons. apply (IH false l); [|exact Hm].
      rewrite Hx. right. exact Hin.
Qed.

Lemma strip_marker_inside (s : string) :
  marker_inside (strip s) = true -> marker_inside s = true.
Proof.
  unfold strip, lstrip, rstrip. intros H.
  destruct (rstrip_by_prefix isspace s) as [v E1].
  destruct (lstrip_by_suffix isspace (rstrip_by isspace s)) as [u E2].
  rewrite E1. apply marker_inside_app_r.
  rewrite E2. apply marker_inside_app_l. exact H.
Qed.

Lemma contains_cons (needle s : string) (c : ascii) :
  contains needle s = true -> contains needle (String c s) = true.
Proof. intros H. cbn [contains]. rewrite H. apply orb_true_r. Qed.

(** With the marker put after a text, anything that follows a marker
    follows one inside the text. *)
Lemma marker_inside_end (b : string) :
  marker_inside (b ++ "Score:") = true -> contains "Score:" b = true.
Proof.
  induction b as [|c b IH]; intros H; [vm_compute in H; discriminate|].
  cbn [append] in H. rewrite marker_inside_eq in H.
  destruct (drop_prefix "Score:" (String c (b ++ "Score:"))) as [[|d r]|] eqn:Hd;
    try (apply contains_cons, IH; exact H).
  apply drop_prefix_eq in Hd.
  destruct b as [|c2 [|c3 [|c4 [|c5 [|c6 b6]]]]]; cbn [append] in Hd;
    try discriminate Hd.
  injection Hd as -> -> -> -> -> -> _.
  cbn [contains]. apply orb_true_iff. left. destruct b6; reflexivity.
Qed.

(** The chunk the loop makes of the text ahead of the marker and the
    marker has no line that matches the score pattern. *)
Lemma quiet_chunk (b : string) :
  contains "Score:" b = false -> quiet (strip (b ++ "Score:")) = true.
Proof.
  intros Hb. unfold quiet. apply forallb_forall. intros l Hin.
  destruct (Re.search_score_turns l) as [m|] eqn:Hs; [|reflexivity].
  exfalso. unfold banner_lines in Hin. apply filter_In in Hin.
  destruct Hin as [Hin _]. apply in_map_iff in Hin.
  destruct Hin as (l' & <- & Hl').
  apply search_marker_inside in Hs. apply strip_marker_inside in Hs.
  apply (lines_marker_inside _ false l' Hl') in Hs.
  apply strip_marker_inside in Hs. apply marker_inside_end in Hs.
  congruence.
Qed.

Lemma quiet_fits (chunk : string) :
  quiet chunk = true -> existsb overlong (banner_lines chunk) = false.
Proof.
  unfold quiet. induction (banner_lines chunk) as [|l ls IH]; [reflexivity|].
  cbn [forallb existsb]. intros H. apply andb_true_iff in H.
  destruct H as [Hl Hls]. rewrite (IH Hls), orb_false_r.
  destruct (Re.search_score_turns l) eqn:Hs; [discriminate|].
  apply overlong_matches. exact Hs.
Qed.

(** The banner of a window of such chunks is read. *)
Lemma parse_banner_quiet (window : list string) :
  Forall (fun c => quiet c = true) window ->
  exists banner, parse_banner (join nl window) = Ok banner.
Proof.
  intros H. rewrite parse_banner_eq; [eauto|].
  rewrite banner_lines_join.
  induction H as [|c cs Hc _ IH]; [reflexivity|].
  cbn [map List.concat]. rewrite existsb_app, (quiet_fits c Hc), IH. reflexivity.
Qed.

Lemma Forall_last_n {A : Type} (P : A -> Prop) (n : nat) (l : list A) :
  Forall P l -> Forall P (History.last_n n l).
Proof.
  intros H. destruct n as [|n]; [exact H|].
  unfold History.last_n. rewrite <- (firstn_skipn (List.length l - S n) l) in H.
  apply Forall_app in H. tauto.
Qed.

Lemma Forall_append {A : Type} (P : A -> Prop) (h : list A) (x : A) :
  Forall P h -> P x -> Forall P (History.append h x).
Proof.
  intros Hh Hx. unfold History.append.
  assert (H : Forall P (h ++ [x])) by (apply Forall_app; auto).
  destruct (12 <? List.length (h ++ [x])); [apply Forall_last_n|]; exact H.
Qed.

End MarkerFacts.

Module SmoothFacts.
Import Agent Trace.

Lemma observe_ok (st : loop_state) :
  delivered st ->
  exists seen hist,
    observe st = Ok (seen, hist)
    /\ sent seen = [] /\ filter is_post_record seen = []
    /\ Forall (fun c => quiet c = true) hist.
Proof.
  intros (Hh & b & Hb & Hm & Ha). unfold observe, read_output.
  rewrite Hb, Ha, !AgentFacts.or_empty_str_str. cbn [add bind].
  destruct (truthy (strip (b ++ "Score:"))); do 2 eexists;
    (split; [reflexivity|]); repeat split; auto.
  apply MarkerFacts.Forall_append; [exact Hh|].
  apply MarkerFacts.quiet_chunk. exact Hm.
Qed.

(** In such a state the banner of the window is read. *)
Lemma delivered_banner (st : loop_state) (seen : list event) (hist : list string) :
  delivered st -> observe st = Ok (seen, hist) ->
  exists banner, parse_banner (join nl (History.banner_window hist)) = Ok banner.
Proof.
  intros Hd Ho.
  destruct (observe_ok st Hd) as (seen' & hist' & Ho' & _ & _ & Hq).
  rewrite Ho' in Ho. inversion Ho; subst.
  apply MarkerFacts.parse_banner_quiet, MarkerFacts.Forall_last_n. exact Hq.
Qed.

Section Smooth.

Variable lib : pexpect_lib.
Variable cfg : config.
Variable env : nat -> turn_env.
Variable py_str : Llm.json -> string.

Hypothesis mock_mode : use_mock cfg = true.
Hypothesis sends : forall t, sendline_ok (env t) = true.
Hypothesis matches :
  forall t, exists b, expected (env t) = Matched b /\ contains "Score:" b = false.



End Smooth.
End SmoothFacts.

(** C6: when the first [n] turns went through and on turn [n + 1], the
    banner of the window having been read, the oracle call fails, or its
    answer has no non-empty line, the loop is left at once: the turn asks
    the oracle once, prints the reason, and the run finishes with a reason
    that is a failure of the decision source.  Nothing else belongs to that
    turn or to a later one: no record, no command sent, no second call.
    A window whose banner [int] refuses ends the run before the oracle is
    asked; that does not happen in a state a wait that found the marker
    leaves. *)
Theorem decision_failure_ends_run
    (lib : Agent.pexpect_lib) (cfg : Agent.config)
    (env : nat -> Agent.turn_env) (py_str : Llm.json -> string)
    (st0 st : Agent.loop_state) (n : nat)
    (evs0 seen : list Agent.event) (hist : list string) :
  Agent.iterate lib cfg env py_str n 1 st0 = (evs0, Agent.RangeDone st) ->
  n < Agent.max_turns cfg ->
  Agent.observe st = Ok (seen, hist) ->
  (Agent.consult cfg env py_str (S n) (Agent.cursor st) = Agent.CallFailed
   \/ exists response i',
        Agent.consult cfg env py_str (S n) (Agent.cursor st)
        = Agent.Answered response i'
        /\ Agent.first_command response = None) ->
  match parse_banner (join nl (History.banner_window hist)) with
  | Ok _ =>
      exists msg why,
        Agent.main lib cfg env py_str st0
        = (evs0 ++ seen
             ++ [Agent.Ask (S n); Agent.Print msg;
                 Agent.Print "Agent finished"; Agent.Close],
           Agent.Finished (Some why))
        /\ Agent.decision_source_failure why = true
        /\ filter (Agent.from_turn (S n)) (fst (Agent.main lib cfg env py_str st0))
           = [Agent.Ask (S n)]
  | Raise e =>
      Agent.main lib cfg env py_str st0 = (evs0 ++ seen, Agent.Aborted e)
      /\ ~ Trace.delivered st
  end.
Proof.
  intros Hit Hn Ho Hc.
  destruct (parse_banner (join nl (History.banner_window hist)))
    as [banner|e] eqn:Hp.
  2:{ split.
      - apply (AgentFacts.main_dies lib cfg env py_str n st0 evs0 st seen e Hit Hn).
        unfold Agent.turn_body. rewrite Ho, Hp. reflexivity.
      - intros Hd. destruct (SmoothFacts.delivered_banner st seen hist Hd Ho)
          as [banner Hb]. congruence. }
  destruct (AgentFacts.turn_body_decision_failure lib cfg env py_str
              (S n) st seen hist banner Ho Hp Hc) as (msg & why & Hb & Hw).
  assert (Hrun : Agent.main lib cfg env py_str st0
                 = (evs0 ++ seen
                      ++ [Agent.Ask (S n); Agent.Print msg;
                          Agent.Print "Agent finished"; Agent.Close],
                    Agent.Finished (Some why))).
  { unfold Agent.main.
    replace (Agent.max_turns cfg) with (n + S (Agent.max_turns cfg - S n)) by lia.
    rewrite (AgentFacts.iterate_add lib cfg env py_str n 1 st0 evs0 st _ Hit).
    simpl. rewrite Hb. simpl. rewrite <- !app_assoc. reflexivity. }
  exists msg, why. split; [exact Hrun|]. split; [exact Hw|].
  rewrite Hrun. simpl fst. rewrite !filter_app.
  pose proof (AgentFacts.iterate_before lib cfg env py_str n 1 st0 (S n)
                ltac:(lia)) as Hbefore.
  rewrite Hit in Hbefore. simpl in Hbefore. rewrite Hbefore.
  rewrite (AgentFacts.observe_seen st seen hist (S n) Ho).
  cbn [app filter Agent.from_turn Agent.event_turn].
  rewrite Nat.leb_refl. reflexivity.
Qed.

(** The sample run of C6: the endpoint is unreachable on turn 2. *)
Lemma decision_failure_on_turn_2 :
  exists msg why,
    Agent.main Agent.pexpect4 (Scenario.remote 3) Scenario.endpoint_down_on_2
      Scenario.py_str Scenario.start
    = (fst (Agent.iterate Agent.pexpect4 (Scenario.remote 3)
              Scenario.endpoint_down_on_2 Scenario.py_str 1 1 Scenario.start)
         ++ [Agent.Transcript "West of House Score:"]
         ++ [Agent.Ask 2; Agent.Print msg;
             Agent.Print "Agent finished"; Agent.Close],
       Agent.Finished (Some why))
    /\ Agent.decision_source_failure why = true
    /\ filter (Agent.from_turn 2)
         (fst (Agent.main Agent.pexpect4 (Scenario.remote 3)
                 Scenario.endpoint_down_on_2 Scenario.py_str Scenario.start))
       = [Agent.Ask 2].
Proof.
  apply (decision_failure_ends_run Agent.pexpect4 (Scenario.remote 3)
           Scenario.endpoint_down_on_2 Scenario.py_str Scenario.start
           (Scenario.state_of
              (Agent.iterate Agent.pexpect4 (Scenario.remote 3)
                 Scenario.endpoint_down_on_2 Scenario.py_str 1 1 Scenario.start))
           1 _ _
           ["West of House Score:"; "West of House Score:"]).
  - vm_compute. reflexivity.
  - simpl. lia.
  - vm_compute. reflexivity.
  - left. vm_compute. reflexivity.
Defined.

Lemma first_command_truthy (response cmd : string) :
  Agent.first_command response = Some cmd -> truthy response = true.
Proof. destruct response; [discriminate | reflexivity]. Qed.

(** X13: when the first [n] turns went through and on turn [n + 1], the
    banner of the window having been read, the command cannot be sent to
    the game, the loop is left at once and the run finishes after "Failed
    to send command to game".  By then the command is already in the
    commands file and, unless SIMPLE_TEXT is set, in a pre-send record of
    that turn; there is no post-receive record for it and no later turn.
    A window whose banner [int] refuses ends the run before the oracle is
    asked; that does not happen in a state a wait that found the marker
    leaves. *)
Theorem send_failure_ends_run
    (lib : Agent.pexpect_lib) (cfg : Agent.config)
    (env : nat -> Agent.turn_env) (py_str : Llm.json -> string)
    (st0 st : Agent.loop_state) (n : nat)
    (evs0 seen : list Agent.event) (hist : list string)
    (response cmd : string) (i' : nat) :
  Agent.iterate lib cfg env py_str n 1 st0 = (evs0, Agent.RangeDone st) ->
  n < Agent.max_turns cfg ->
  Agent.observe st = Ok (seen, hist) ->
  Agent.consult cfg env py_str (S n) (Agent.cursor st)
  = Agent.Answered response i' ->
  Agent.first_command response = Some cmd ->
  Agent.sendline_ok (env (S n)) = false ->
  match parse_banner (join nl (History.banner_window hist)) with
  | Ok _ =>
      exists pre,
        Agent.main lib cfg env py_str st0
        = (evs0 ++ seen
             ++ [Agent.Ask (S n); Agent.PrintCommand (S n) cmd; Agent.CommandLog cmd]
             ++ pre
             ++ [Agent.Print "Failed to send command to game";
                 Agent.Print "Agent finished"; Agent.Close],
           Agent.Finished (Some Agent.SendFailed))
        /\ (if Agent.simple_text cfg then pre = []
            else exists r,
                   pre = [Agent.JsonPre r]
                   /\ Agent.pre_turn r = S n /\ Agent.pre_command r = cmd
                   /\ Agent.pre_llm_response_raw r = response)
        /\ Trace.sent (fst (Agent.main lib cfg env py_str st0)) = Trace.sent evs0
  | Raise e =>
      Agent.main lib cfg env py_str st0 = (evs0 ++ seen, Agent.Aborted e)
      /\ ~ Trace.delivered st
  end.
Proof.
  intros Hi Hn Ho Hc Hf Hs.
  destruct (parse_banner (join nl (History.banner_window hist)))
    as [[[loc sc] tu]|e] eqn:Hp.
  2:{ split.
      - apply (AgentFacts.main_dies lib cfg env py_str n st0 evs0 st seen e Hi Hn).
        unfold Agent.turn_body. rewrite Ho, Hp. reflexivity.
      - intros Hd. destruct (SmoothFacts.delivered_banner st seen hist Hd Ho)
          as [banner Hb]. congruence. }
  assert (Hb : exists pre,
             Agent.turn_body lib cfg env py_str (S n) st
             = (seen
                  ++ [Agent.Ask (S n); Agent.PrintCommand (S n) cmd;
                      Agent.CommandLog cmd]
                  ++ pre ++ [Agent.Print "Failed to send command to game"],
                Agent.Break Agent.SendFailed)
             /\ (if Agent.simple_text cfg then pre = []
                 else exists r,
                        pre = [Agent.JsonPre r]
                        /\ Agent.pre_turn r = S n /\ Agent.pre_command r = cmd
                        /\ Agent.pre_llm_response_raw r = response)).
  { unfold Agent.turn_body. rewrite Ho, Hp.
    unfold Agent.decide. rewrite Hc, (first_command_truthy _ _ Hf), Hf.
    cbn [negb]. unfold Agent.act. rewrite parse_game_state_eq, Hs.
    destruct (Agent.simple_text cfg); eexists; (split; [reflexivity|]);
      [reflexivity | eexists; repeat split]. }
  destruct Hb as (pre & Hb & Hpre).
  assert (Hmain : Agent.main lib cfg env py_str st0
                  = (evs0 ++ seen
                       ++ [Agent.Ask (S n); Agent.PrintCommand (S n) cmd;
                           Agent.CommandLog cmd]
                       ++ pre
                       ++ [Agent.Print "Failed to send command to game";
                           Agent.Print "Agent finished"; Agent.Close],
                     Agent.Finished (Some Agent.SendFailed))).
  { unfold Agent.main.
    replace (Agent.max_turns cfg) with (n + S (Agent.max_turns cfg - S n)) by lia.
    rewrite (AgentFacts.iterate_add lib cfg env py_str n 1 st0 evs0 st _ Hi).
    simpl. rewrite Hb. simpl. rewrite <- !app_assoc. simpl.
    rewrite <- !app_assoc. reflexivity. }
  exists pre. split; [exact Hmain|]. split; [exact Hpre|].
  rewrite Hmain. cbn [fst]. rewrite !TraceFacts.sent_app.
  assert (Hseen : Trace.sent seen = []).
  { unfold Agent.observe in Ho.
    destruct (Agent.read_output _ _) as [recent|]; [|discriminate].
    simpl in Ho. destruct (truthy (strip recent)); inversion Ho; reflexivity. }
  assert (Hp' : Trace.sent pre = []).
  { destruct (Agent.simple_text cfg); [subst; reflexivity|].
    destruct Hpre as (r & -> & _). reflexivity. }
  rewrite Hseen, Hp'. simpl. rewrite app_nil_r. reflexivity.
Qed.

(** The sample run of X13: the pipe to the game breaks on turn 2. *)
Lemma send_failure_on_turn_2 :
  exists pre,
    Agent.main Agent.pexpect4 (Scenario.remote 3) Scenario2.send_fails_on_2
      Scenario.py_str Scenario.start
    = (fst (Agent.iterate Agent.pexpect4 (Scenario.remote 3)
              Scenario2.send_fails_on_2 Scenario.py_str 1 1 Scenario.start)
         ++ [Agent.Transcript "West of House Score:"]
         ++ [Agent.Ask 2; Agent.PrintCommand 2 "go north";
             Agent.CommandLog "go north"]
         ++ pre
         ++ [Agent.Print "Failed to send command to game";
             Agent.Print "Agent finished"; Agent.Close],
       Agent.Finished (Some Agent.SendFailed))
    /\ (exists r,
           pre = [Agent.JsonPre r]
           /\ Agent.pre_turn r = 2 /\ Agent.pre_command r = "go north"
           /\ Agent.pre_llm_response_raw r = "go north")
    /\ Trace.sent
         (fst (Agent.main Agent.pexpect4 (Scenario.remote 3)
                 Scenario2.send_fails_on_2 Scenario.py_str Scenario.start))
       = Trace.sent
           (fst (Agent.iterate Agent.pexpect4 (Scenario.remote 3)
                   Scenario2.send_fails_on_2 Scenario.py_str 1 1 Scenario.start)).
Proof.
  apply (send_failure_ends_run Agent.pexpect4 (Scenario.remote 3)
           Scenario2.send_fails_on_2 Scenario.py_str Scenario.start
           (Scenario.state_of
              (Agent.iterate Agent.pexpect4 (Scenario.remote 3)
                 Scenario2.send_fails_on_2 Scenario.py_str 1 1 Scenario.start))
           1 _ _
           ["West of House Score:"; "West of House Score:"]
           "go north" "go north" 0).
  - vm_compute. reflexivity.
  - simpl. lia.
  - vm_compute. reflexivity.
  - vm_compute. reflexivity.
  - vm_compute. reflexivity.
  - reflexivity.
Defined.



(** ** The windows of the history *)

Lemma append_ends {A : Type} (h : list A) (x : A) :
  exists pre, History.append h x = pre ++ [x].
Proof.
  unfold History.append, History.last_n.
  destruct (12 <? List.length (h ++ [x])) eqn:Hlt; [|eauto].
  apply Nat.ltb_lt in Hlt. rewrite length_app in *. simpl in *.
  exists (skipn (List.length h + 1 - 12) h).
  rewrite skipn_app.
  replace (List.length h + 1 - 12 - List.length h) with 0 by lia. reflexivity.
Qed.

Lemma last_n_ends {A : Type} (n : nat) (pre : list A) (x : A) :
  exists pre', History.last_n (S n) (pre ++ [x]) = pre' ++ [x].
Proof.
  rewrite HistoryFacts.last_n_skipn, length_app. simpl.
  exists (skipn (List.length pre + 1 - S n) pre).
  rewrite skipn_app.
  replace (List.length pre + 1 - S n - List.length pre) with 0 by lia.
  reflexivity.
Qed.

Lemma last_n_nested {A : Type} (m n : nat) (l : list A) :
  m <= n ->
  History.last_n (S m) (History.last_n (S n) l) = History.last_n (S m) l.
Proof.
  intros Hmn. rewrite !HistoryFacts.last_n_skipn, skipn_skipn, length_skipn.
  f_equal. lia.
Qed.

Lemma banner_score_snoc (older : list string) (newest : string) :
  banner_score (join nl (older ++ [newest]))
  = match banner_score newest with
    | Some m => Some m
    | None => banner_score (join nl older)
    end.
Proof.
  unfold banner_score.
  rewrite !banner_lines_join, map_app, concat_app, map_app, last_some_app.
  simpl. rewrite app_nil_r. reflexivity.
Qed.

(** X15: after an append the newest chunk is the last entry of the banner
    window [history[-4:]] and of the context window [history[-6:]]; the
    banner window is the tail of the context window; and the score and
    turns the loop reads from the banner window are those of the newest
    chunk whenever that chunk has a status line. *)
Theorem windows_end_with_newest_chunk (h : list string) (x : string) :
  (exists pre, History.banner_window (History.append h x) = pre ++ [x])
  /\ (exists pre, History.context_window (History.append h x) = pre ++ [x])
  /\ History.banner_window (History.context_window h) = History.banner_window h
  /\ (exists pre, History.context_window h = pre ++ History.banner_window h)
  /\ (exists pre,
         banner_score (join nl (History.banner_window (History.append h x)))
         = match banner_score x with
           | Some m => Some m
           | None => banner_score (join nl pre)
           end).
Proof.
  destruct (append_ends h x) as [pre E].
  destruct (last_n_ends 3 pre x) as [pre4 E4].
  destruct (last_n_ends 5 pre x) as [pre6 E6].
  unfold History.banner_window, History.context_window. rewrite E.
  split; [eauto|]. split; [eauto|].
  split; [apply last_n_nested; lia|].
  split.
  { rewrite <- (last_n_nested 3 5 h) by lia.
    eexists. apply HistoryFacts.last_n_suffix. }
  exists pre4. rewrite E4. apply banner_score_snoc.
Qed.

(** ** The start-up banner *)

(** X16: with pexpect 4, when the wait for the start-up banner does not
    find "Score:" (time-out or end of the game's output) and at least one
    turn is due, no turn is played: either the fall-back read raises and
    the exception leaves [main], or the banner is printed and the first
    iteration raises [TypeError] before it consults the oracle, because
    [game.after] holds the exception class. *)
Theorem failed_startup_plays_no_turn
    (cfg : Agent.config) (env : nat -> Agent.turn_env)
    (py_str : Llm.json -> string) (b : string) :
  0 < Agent.max_turns cfg ->
  (forall initial,
      Startup.agent Agent.pexpect4 cfg env py_str (Agent.TimedOut b) (Ok initial)
      = ([Agent.Print "Initial banner:"; Agent.Print initial;
          Agent.Transcript initial],
         Agent.Aborted TypeError)
      /\ Startup.agent Agent.pexpect4 cfg env py_str (Agent.EndOfFile b)
           (Ok initial)
         = ([Agent.Print "Initial banner:"; Agent.Print initial;
             Agent.Transcript initial],
            Agent.Aborted TypeError))
  /\ (forall e,
        Startup.agent Agent.pexpect4 cfg env py_str (Agent.TimedOut b) (Raise e)
        = ([], Agent.Aborted e)
        /\ Startup.agent Agent.pexpect4 cfg env py_str (Agent.EndOfFile b)
             (Raise e)
           = ([], Agent.Aborted e)).
Proof.
  intros Hn. split; [|intros e; split; reflexivity].
  intros initial. unfold Startup.agent, Startup.banner, Agent.main.
  cbn [bind Agent.after_eof Agent.after_timeout Agent.pexpect4].
  destruct (Agent.max_turns cfg) as [|m]; [lia|].
  cbn [Agent.iterate].
  unfold Agent.turn_body, Agent.observe, Agent.read_output.
  cbn [Agent.before Agent.after]. rewrite AgentFacts.or_empty_str_str.
  split; reflexivity.
Qed.

(** The sample run of X16: the start-up wait times out, three turns due. *)
Lemma startup_timeout_plays_no_turn :
  (forall initial,
      Startup.agent Agent.pexpect4 (Scenario.mock 3) Scenario2.smooth
        Scenario.py_str (Agent.TimedOut "ZORK I") (Ok initial)
      = ([Agent.Print "Initial banner:"; Agent.Print initial;
          Agent.Transcript initial],
         Agent.Aborted TypeError)
      /\ Startup.agent Agent.pexpect4 (Scenario.mock 3) Scenario2.smooth
           Scenario.py_str (Agent.EndOfFile "ZORK I") (Ok initial)
         = ([Agent.Print "Initial banner:"; Agent.Print initial;
             Agent.Transcript initial],
            Agent.Aborted TypeError))
  /\ (forall e,
        Startup.agent Agent.pexpect4 (Scenario.mock 3) Scenario2.smooth
          Scenario.py_str (Agent.TimedOut "ZORK I") (Raise e)
        = ([], Agent.Aborted e)
        /\ Startup.agent Agent.pexpect4 (Scenario.mock 3) Scenario2.smooth
             Scenario.py_str (Agent.EndOfFile "ZORK I") (Raise e)
           = ([], Agent.Aborted e)).
Proof.
  apply (failed_startup_plays_no_turn (Scenario.mock 3) Scenario2.smooth
           Scenario.py_str "ZORK I").
  simpl. lia.
Defined.
